(** * WooCommerce Sync Coordinator: classifier and idempotent dispatcher

  A shallow embedding of [agents/woocommerce_sync_coordinator.py].

  - Python [str] values are [string]s holding their UTF-8 bytes and
    [x in y] is the substring test.  [str.lower] belongs to the
    interpreter: it is a parameter, [str_lower], of which the development
    assumes only what it does to ASCII text.
  - An attribute that may be [None] (the body of an issue without a
    description) is an [option string]; calling a method on [None]
    raises.
  - The issue tracker is an explicit store: the open issues of each
    repository, the comments of each issue, and oracles telling which
    tokens the client constructor refuses and which collaborator
    operations raise.  The agent's methods thread that store and the
    event trace through a state-and-exception monad. *)

From Stdlib Require Import ZArith Ascii String List Bool DecimalString.
From stdpp Require Import gmap strings list fin_maps.

Import ListNotations.
Local Open Scope string_scope.
Local Open Scope list_scope.

#[local] Arguments append !s1 s2 : simpl nomatch.

(** ** Python strings *)

Module PyStr.

(** [c.lower()] for an ASCII character: [A]..[Z] move to [a]..[z]. *)
Definition lower_ascii (c : ascii) : ascii :=
  let n := N_of_ascii c in
  if ((65 <=? n) && (n <=? 90))%N then ascii_of_N (n + 32) else c.

(** [s.lower()] for ASCII text: letter by letter; bytes that are not ASCII
  letters stay. *)
Fixpoint lower (s : string) : string :=
  match s with
  | EmptyString => EmptyString
  | String c s' => String (lower_ascii c) (lower s')
  end.

(** [s.startswith(p)] *)
Fixpoint startswith (p s : string) : bool :=
  match p, s with
  | EmptyString, _ => true
  | String _ _, EmptyString => false
  | String c p', String d s' => Ascii.eqb c d && startswith p' s'
  end.

(** [p in s]: [p] occurs in [s] as a contiguous substring. *)
Fixpoint contains (p s : string) : bool :=
  startswith p s ||
  match s with
  | EmptyString => false
  | String _ s' => contains p s'
  end.

(** [any(word in text for word in words)] *)
Definition any_in (words : list string) (text : string) : bool :=
  existsb (fun word => contains word text) words.

(** The text is ASCII: every byte is below 128. *)
Fixpoint is_ascii (s : string) : bool :=
match s with
| EmptyString => true
| String c s' => (N_of_ascii c <? 128)%N && is_ascii s'
end.

(** Three code points in UTF-8: U+212A KELVIN SIGN, U+0130 LATIN CAPITAL
    LETTER I WITH DOT ABOVE and U+0307 COMBINING DOT ABOVE. *)
Definition kelvin_sign : string :=
  String "226" (String "132" (String "170" EmptyString)).
Definition dotted_capital_i : string :=
  String "196" (String "176" EmptyString).
Definition combining_dot_above : string :=
  String "204" (String "135" EmptyString).

(** [s.lower()] on text that has, beyond ASCII, the two code points whose
    lower-case form has an ASCII letter: U+212A becomes [k], and U+0130
    becomes [i] followed by U+0307. *)
Fixpoint lower_wide (s : string) : string :=
match s with
| EmptyString => EmptyString
| String c1 s1 =>
  match s1 with
  | String c2 s2 =>
    if Ascii.eqb c1 "196" && Ascii.eqb c2 "176"
    then String "i" (append combining_dot_above (lower_wide s2))
    else
      match s2 with
      | String c3 s3 =>
        if Ascii.eqb c1 "226" && Ascii.eqb c2 "132" && Ascii.eqb c3 "170"
        then String "k" (lower_wide s3)
        else String (lower_ascii c1) (lower_wide s1)
      | EmptyString => String (lower_ascii c1) (lower_wide s1)
      end
  | EmptyString => String (lower_ascii c1) (lower_wide s1)
  end
end.

(** [f"{n}"] for an integer. *)
Definition str_of_int (n : Z) : string :=
  NilZero.string_of_int (Z.to_int n).

End PyStr.
Import PyStr.

(** ** Exceptions and results *)

Inductive Exn : Type :=
| AttributeError (msg : string)
| AssertionError (msg : string)
| GithubException (msg : string).

(** [str(e)] *)
Definition str_of_exn (e : Exn) : string :=
match e with
| AttributeError msg => msg
| AssertionError msg => msg
| GithubException msg => msg
end.

Inductive result (A : Type) : Type :=
| Ok (a : A)
| Raise (e : Exn).
Arguments Ok {A} a.
Arguments Raise {A} e.

(** ** The interpreter's [str.lower] *)

(** [str.lower] follows the Unicode tables of the interpreter, which are
  not part of the program.  It is taken as a parameter, with the one fact
  the development uses: ASCII text is lower-cased letter by letter
  wherever it stands, so that [a + v + c] with ASCII [v] lower-cases to
  some [x + v.lower() + y], where [x] is empty when [a] is and [y] is
  empty when [c] is.  What becomes of the other characters, such as
  U+212A, whose lower case is the ASCII [k], is left open: [lower] and
  [lower_wide] are two functions of that kind. *)
Class StrLower : Type := {
str_lower : string -> string;
str_lower_ascii_infix :
  forall a v c : string,
    is_ascii v = true ->
    exists x y : string,
      str_lower (a +:+ v +:+ c) = x +:+ lower v +:+ y /\
      (a = "" -> x = "") /\ (c = "" -> y = "")
}.

Section Coordinator.

Context {interpreter : StrLower}.

(** [x.lower()] where [x] may be [None]. *)
Definition py_lower (x : option string) : result string :=
match x with
| Some s => Ok (str_lower s)
| None => Raise (AttributeError "'NoneType' object has no attribute 'lower'")
end.

(** ** The agent *)

(** The attributes of [WooCommerceSyncCoordinator] that its methods read.
  ([module_info] and [business_context] are set by [__init__] and never
  read afterwards.) *)
Record WooCommerceSyncCoordinator : Type := {
github_token : option string;
cross_repo_token : option string;
module_path : string
}.

(** [os.environ] *)
Abbreviation Environ := (gmap string string).

(** [WooCommerceSyncCoordinator.__init__] *)
Definition init (environ : Environ) : WooCommerceSyncCoordinator :=
let github_token := environ !! "GITHUB_TOKEN" in
{| github_token := github_token;
   cross_repo_token :=
     match environ !! "CROSS_REPO_TOKEN" with
     | Some t => Some t
     | None => github_token
     end;
   module_path := "/home/jason/odoo17_custom_addons/integration_woocommerce" |}.

(** Truth value of an optional string: [None] and [''] are false. *)
Definition truthy (x : option string) : bool :=
match x with
| Some (String _ _) => true
| _ => false
end.

(** ** Response templates *)

(** The text of [handle_product_sync_request] before and after the
    interpolated [self.module_path]. *)
Definition product_sync_head : string :=
"## 🛒 WooCommerce Sync Coordinator Response - Product Synchronization

I'll help you set up product synchronization between Odoo and WooCommerce.

### Product Sync Capabilities:

1. **Paint Product Structure**
   - Simple products: Single paint products
   - Variable products: Paint with color/size variants
   - Bundles: Paint kits and accessories
   - Custom attributes for Tikkurila formulas

2. **Synchronization Process**
   ```python
   # Module location: ".

Definition product_sync_tail : string :=
"
   # Process flow:
   # 1. Configure field mappings
   # 2. Set sync direction (Odoo→WC, WC→Odoo, or both)
   # 3. Enable job queue for bulk operations
   # 4. Schedule or trigger sync
   ```

3. **Paint-Specific Mappings**
   - Product name → WooCommerce title
   - Tikkurila color code → Custom attribute
   - Paint size variants → Variable product options
   - Formula info → Product description/meta
   - Stock levels → Inventory sync

4. **Job Queue Processing**
   - Bulk imports run in background
   - Progress tracking via job dashboard
   - Error handling and retry logic
   - Avoids timeout issues

### Configuration Steps:
1. **Field Mapping**: Map Odoo fields to WooCommerce
2. **Variant Setup**: Configure color/size attributes
3. **Image Sync**: Product images and color swatches
4. **Pricing**: Handle B2B/B2C price lists
5. **Categories**: Map paint categories

### Critical for Paint Business:
- Ensure Tikkurila color codes sync correctly
- Maintain formula integrity in descriptions
- Handle paint size variants properly
- Keep stock levels accurate

---
*Synchronizing paint products between Odoo and online store*".

(** The literal returned by [handle_order_sync_request]. *)
Definition order_sync_text : string :=
"## 🛒 WooCommerce Sync Coordinator Response - Order Management

### Order Synchronization Features:

1. **Real-Time Order Import**
   - Webhook triggers on order creation/update
   - Immediate processing in Odoo
   - No delay for customer orders
   - Automatic customer creation

2. **Webhook Configuration**
   ```
   WooCommerce → Webhook → Odoo Controller → Job Queue → Order Creation
   ```
   - Webhook URL: `https://[odoo-domain]/woocommerce/webhook/order`
   - Events: Order created, updated, completed
   - Security: Webhook secret validation

3. **Order Processing Flow**
   - Order received via webhook
   - Job queued for processing
   - Customer matched/created
   - Products mapped to Odoo
   - Order created with proper workflow

4. **Paint Order Specifics**
   - Custom color selections
   - Formula requirements captured
   - B2B customer pricing applied
   - Delivery instructions preserved

### Job Queue Benefits:
- Non-blocking order processing
- Retry failed imports
- Bulk order handling
- Performance optimization

### Configuration Requirements:
1. Enable webhooks in WooCommerce
2. Configure webhook secret
3. Set order field mappings
4. Define order workflow
5. Test with sample orders

### Error Handling:
- Failed orders queued for retry
- Email notifications on errors
- Manual intervention options
- Detailed error logs

---
*Ensuring paint orders flow seamlessly from web to warehouse*".

(** The literal returned by [handle_job_queue_request]. *)
Definition job_queue_text : string :=
"## 🛒 WooCommerce Sync Coordinator Response - Job Queue System

### Understanding the Job Queue Architecture:

1. **What is Job Queue?**
   - Asynchronous task processing system
   - Based on OCA's `queue_job` module
   - Prevents timeouts on heavy operations
   - Allows parallel processing

2. **How It Works**
   ```
   Trigger → Create Job → Queue → Worker → Execute → Complete/Retry
   ```
   - Jobs run in background
   - Multiple workers possible
   - Automatic retry on failure
   - Progress tracking

3. **WooCommerce Integration Jobs**
   - **Product Import/Export**: Bulk product sync
   - **Order Import**: Process webhook data
   - **Stock Update**: Inventory synchronization
   - **Customer Sync**: B2B/B2C customer data

4. **Job Channels**
   ```python
   # Defined channels:
   - root.woocommerce
   - root.woocommerce.product
   - root.woocommerce.order
   ```
   - Priority-based processing
   - Resource allocation control
   - Prevents system overload

5. **Monitoring Jobs**
   - Menu: Settings → Technical → Job Queue
   - View pending/failed/done jobs
   - Retry failed jobs manually
   - Check execution logs

### Benefits for Paint Business:
- Import thousands of products without timeout
- Process orders immediately via webhooks
- Update stock levels in batches
- Handle peak sales periods

### Troubleshooting:
- Check job queue dashboard
- Verify worker processes running
- Review failed job logs
- Adjust job priorities if needed

---
*Asynchronous processing for reliable e-commerce integration*".

(** The literal returned by [handle_configuration_request]. *)
Definition configuration_text : string :=
"## 🛒 WooCommerce Sync Coordinator Response - Configuration Guide

### Initial Setup Steps:

1. **WooCommerce API Configuration**
   ```
   Settings → Integrations → WooCommerce
   ```
   - Store URL: https://your-store.com
   - Consumer Key: wc_xxxxxxxxxx
   - Consumer Secret: cs_xxxxxxxxxx
   - API Version: wc/v3 (recommended)

2. **Webhook Setup**
   - Go to WooCommerce → Settings → Advanced → Webhooks
   - Create webhooks for:
     - Order created
     - Order updated
     - Product updated (if bidirectional)
   - Webhook URL format:
     ```
     https://[odoo-url]/woocommerce/webhook/[type]
     ```

3. **Field Mapping Configuration**
   - Map Odoo fields to WooCommerce attributes
   - Special mappings for paint products:
     - Tikkurila codes → Custom attributes
     - Paint sizes → Variations
     - B2B prices → Wholesale prices

4. **Job Queue Setup**
   ```bash
   # Start job queue workers
   python odoo-bin worker --db-filter=^your_db$
   ```
   - Configure worker count
   - Set memory limits
   - Enable auto-restart

5. **Synchronization Settings**
   - Sync direction (one-way or bidirectional)
   - Automatic sync intervals
   - Manual sync triggers
   - Conflict resolution rules

### Paint-Specific Configuration:
- Enable variant sync for colors/sizes
- Map formula fields to product meta
- Configure B2B customer groups
- Set inventory sync for paint stock

### Testing Checklist:
✓ API connection test
✓ Webhook delivery test
✓ Sample product sync
✓ Test order creation
✓ Inventory update verification

---
*Configuring reliable paint product synchronization*".

(** The text of [general_response] before and after the interpolated
    [title]. *)
Definition general_head : string :=
"## 🛒 WooCommerce Sync Coordinator Response

I manage the integration between Odoo and WooCommerce for the paint business.

### Current Request: ".

Definition general_tail : string :=
"

### Module Capabilities:
1. **Product Synchronization**
   - Simple and variable products
   - Paint colors and sizes
   - Tikkurila formula data
   - Image synchronization

2. **Order Management**
   - Real-time webhook import
   - B2B/B2C customer handling
   - Automatic workflow triggers
   - Payment status sync

3. **Inventory Control**
   - Stock level updates
   - Multi-warehouse support
   - Low stock notifications
   - Batch processing

4. **Job Queue System**
   - Asynchronous processing
   - Bulk operations
   - Error recovery
   - Performance optimization

### Architecture Overview:
- Module: `integration_woocommerce`
- Dependencies: `queue_job`, `integration`
- Processing: Webhook + Job Queue
- Direction: Bidirectional sync

### Business Impact:
This integration ensures your paint products are accurately represented online, orders flow seamlessly to Odoo, and inventory stays synchronized across channels.

How can I help with your specific WooCommerce integration need?

---
*E-commerce integration for paint manufacturing excellence*".

Inductive Category : Type :=
| product_sync
| order_sync
| job_queue
| configuration
| general.

Section Handlers.

Variable self : WooCommerceSyncCoordinator.

Definition handle_product_sync_request (title : string) (body : option string) : string :=
  product_sync_head +:+ module_path self +:+ product_sync_tail.

Definition handle_order_sync_request (title : string) (body : option string) : string :=
  order_sync_text.

Definition handle_job_queue_request (title : string) (body : option string) : string :=
  job_queue_text.

Definition handle_configuration_request (title : string) (body : option string) : string :=
  configuration_text.

Definition general_response (title : string) : string :=
  general_head +:+ title +:+ general_tail.

(** [analyze_request]: the chain of keyword guards, first match wins. *)
Definition analyze_request (issue_title : string) (issue_body : option string)
  : result string :=
  match py_lower (Some issue_title) with
  | Raise e => Raise e
  | Ok title_lower =>
    match py_lower issue_body with
    | Raise e => Raise e
    | Ok body_lower =>
      let text := title_lower +:+ " " +:+ body_lower in
      if any_in ["product"; "sync"; "variant"; "color"] text then
        Ok (handle_product_sync_request issue_title issue_body)
      else if any_in ["order"; "webhook"; "real-time"] text then
        Ok (handle_order_sync_request issue_title issue_body)
      else if any_in ["job"; "queue"; "async"; "background"] text then
        Ok (handle_job_queue_request issue_title issue_body)
      else if any_in ["config"; "setup"; "webhook"; "api"] text then
        Ok (handle_configuration_request issue_title issue_body)
      else
        Ok (general_response issue_title)
    end
  end.

End Handlers.

(** The classifier proper: the same chain of guards as [analyze_request],
    returning the label of the branch taken instead of its text. *)
Definition category_of (text : string) : Category :=
  if any_in ["product"; "sync"; "variant"; "color"] text then product_sync
  else if any_in ["order"; "webhook"; "real-time"] text then order_sync
  else if any_in ["job"; "queue"; "async"; "background"] text then job_queue
  else if any_in ["config"; "setup"; "webhook"; "api"] text then configuration
  else general.

(** The text the guards of [analyze_request] are evaluated on. *)
Definition request_text (issue_title issue_body : string) : string :=
  str_lower issue_title +:+ " " +:+ str_lower issue_body.

Definition classify (issue_title : string) (issue_body : option string)
  : result Category :=
  match py_lower (Some issue_title) with
  | Raise e => Raise e
  | Ok title_lower =>
    match py_lower issue_body with
    | Raise e => Raise e
    | Ok body_lower => Ok (category_of (title_lower +:+ " " +:+ body_lower))
    end
  end.

(** The handler [analyze_request] calls for each label. *)
Definition respond (self : WooCommerceSyncCoordinator) (c : Category)
    (issue_title : string) (issue_body : option string) : string :=
  match c with
  | product_sync => handle_product_sync_request self issue_title issue_body
  | order_sync => handle_order_sync_request issue_title issue_body
  | job_queue => handle_job_queue_request issue_title issue_body
  | configuration => handle_configuration_request issue_title issue_body
  | general => general_response issue_title
  end.

(** The classifier in the words of the specification: an ordered table of
    keyword sets, first match wins, [general] when none matches. *)
Definition priority_table : list (Category * list string) :=
  [ (product_sync, ["product"; "sync"; "variant"; "color"]);
    (order_sync, ["order"; "webhook"; "real-time"]);
    (job_queue, ["job"; "queue"; "async"; "background"]);
    (configuration, ["config"; "setup"; "webhook"; "api"]) ].

Fixpoint first_match (table : list (Category * list string)) (text : string)
  : Category :=
  match table with
  | [] => general
  | (c, keywords) :: rest =>
    if any_in keywords text then c else first_match rest text
  end.

(** The identity marker [already_responded] looks for. *)
Definition marker : string := "WooCommerce Sync Coordinator".

(** The keywords of the relevance filter applied to monitored repositories. *)
Definition relevance_keywords : list string :=
  ["woocommerce"; "ecommerce"; "e-commerce"; "online store";
   "webhook"; "shop sync"; "product sync"].

(** ** The issue tracker *)

(** A [Github(token)] client. *)
Record Github : Type := { token : option string }.

(** What the tracker holds for an issue. *)
Record IssueData : Type := {
  number : Z;
  title : string;
  body : option string
}.

(** An issue object as handed out by [get_issues]: it remembers the client
    and repository it came from. *)
Record Issue : Type := {
  via : Github;
  repo : string;
  data : IssueData
}.

(** A repository object as handed out by [get_repo]. *)
Record Repository : Type := {
  client : Github;
  full_name : string
}.

(** The collaborator operations the agent depends on. *)
Inductive Op : Type :=
| op_get_repo (g : Github) (name : string)
| op_get_issues (g : Github) (name : string)
| op_get_comments (g : Github) (name : string) (n : Z)
| op_create_comment (g : Github) (name : string) (n : Z) (text : string).

Inductive Event : Type :=
| Call (o : Op)
| LogInfo (msg : string)
| LogError (msg : string).

(** The part of the tracker the agent cannot change: the open issues of
    each repository and the failure oracles.  [refuses tok] tells whether
    the client constructor [Github(tok)] raises for the token;
    [raises history o] tells whether operation [o], invoked after
    [history], raises. *)
Record Tracker : Type := {
  open_issues : gmap string (list IssueData);
  refuses : option string -> option Exn;
  raises : list Event -> Op -> option Exn
}.

(** The part a run changes: the comment bodies of each issue, oldest
    first, and the trace of calls and log records. *)
Record World : Type := {
  comments : gmap (string * Z) (list string);
  trace : list Event
}.

Definition comments_of (w : World) (k : string * Z) : list string :=
  default [] (comments w !! k).

(** ** State and exceptions *)

Definition M (A : Type) : Type := World -> result A * World.

Definition ret {A} (a : A) : M A := fun w => (Ok a, w).

Definition raise {A} (e : Exn) : M A := fun w => (Raise e, w).

Definition bind {A B} (m : M A) (k : A -> M B) : M B :=
  fun w =>
    match m w with
    | (Ok a, w') => k a w'
    | (Raise e, w') => (Raise e, w')
    end.

(** [try: m except Exception as e: handler e] *)
Definition try_except {A} (m : M A) (handler : Exn -> M A) : M A :=
  fun w =>
    match m w with
    | (Ok a, w') => (Ok a, w')
    | (Raise e, w') => handler e w'
    end.

Definition lift {A} (r : result A) : M A := fun w => (r, w).

Declare Scope py_scope.
Delimit Scope py_scope with py.
Notation "x <- m ;; k" := (bind m (fun x => k))
  (at level 100, m at next level, right associativity) : py_scope.
Notation "m ;; k" := (bind m (fun _ => k))
  (at level 100, right associativity) : py_scope.
Local Open Scope py_scope.

(** [for x in xs: body x] *)
Fixpoint for_each {A} (xs : list A) (body : A -> M unit) : M unit :=
  match xs with
  | [] => ret tt
  | x :: xs' => body x ;; for_each xs' body
  end.

(** The world with one more event at the end of its trace. *)
Definition with_event (w : World) (ev : Event) : World :=
  {| comments := comments w; trace := trace w ++ [ev] |}.

Definition emit (ev : Event) : M unit := fun w => (Ok tt, with_event w ev).

Definition logger_info (msg : string) : M unit := emit (LogInfo msg).
Definition logger_error (msg : string) : M unit := emit (LogError msg).

(** [traceback.format_exc()]; the stack frames are left out. *)
Definition format_exc (e : Exn) : string :=
  "Traceback (most recent call last): " +:+
  match e with
  | AttributeError msg => "AttributeError: " +:+ msg
  | AssertionError msg => "AssertionError: " +:+ msg
  | GithubException msg => "GithubException: " +:+ msg
  end.

Section Agent.

Variable tr : Tracker.

(** Record the call, then ask the oracle about it. *)
Definition invoke (o : Op) : M unit :=
  fun w =>
    match raises tr (trace w) o with
    | Some e => (Raise e, with_event w (Call o))
    | None => (Ok tt, with_event w (Call o))
    end.

(** [Github(tok)]: the constructor contacts nobody; it raises for a token
    the library refuses. *)
Definition connect (tok : option string) : M Github :=
  fun w =>
    match refuses tr tok with
    | Some e => (Raise e, w)
    | None => (Ok {| token := tok |}, w)
    end.

(** [g.get_repo(name)]; a repository the tracker does not know is a 404. *)
Definition get_repo (g : Github) (name : string) : M Repository :=
  invoke (op_get_repo g name) ;;
  match open_issues tr !! name with
  | Some _ => ret {| client := g; full_name := name |}
  | None => raise (GithubException "404 Not Found")
  end.

(** [repo.get_issues(state='open')] *)
Definition get_issues (r : Repository) : M (list Issue) :=
  invoke (op_get_issues (client r) (full_name r)) ;;
  ret (map (fun d => {| via := client r; repo := full_name r; data := d |})
           (default [] (open_issues tr !! full_name r))).

(** [issue.get_comments()], as the list of comment bodies. *)
Definition get_comments (issue : Issue) : M (list string) :=
  invoke (op_get_comments (via issue) (repo issue) (number (data issue))) ;;
  fun w => (Ok (comments_of w (repo issue, number (data issue))), w).

(** [issue.create_comment(text)] *)
Definition create_comment (issue : Issue) (text : string) : M unit :=
  invoke (op_create_comment (via issue) (repo issue) (number (data issue)) text) ;;
  fun w =>
    let k := (repo issue, number (data issue)) in
    (Ok tt, {| comments := <[k := comments_of w k ++ [text]]> (comments w);
               trace := trace w |}).

Variable self : WooCommerceSyncCoordinator.

(** [already_responded]: the loop returns [True] at the first comment
    bearing the marker and [False] after the last one. *)
Definition already_responded (issue : Issue) : M bool :=
  cs <- get_comments issue ;;
  ret (existsb (fun comment_body => contains marker comment_body) cs).

(** The body of the loop over the issues of the agent's own repository. *)
Definition respond_own (issue : Issue) : M unit :=
  responded <- already_responded issue ;;
  if negb responded then
    response <- lift (analyze_request self (title (data issue)) (body (data issue))) ;;
    create_comment issue response ;;
    logger_info ("Responded to issue #" +:+ str_of_int (number (data issue)))
  else ret tt.

(** The test guarding the issues of a monitored repository. *)
Definition mentions_ecommerce (issue : Issue) : result bool :=
  match py_lower (Some (title (data issue))) with
  | Raise e => Raise e
  | Ok title_lower =>
    match py_lower (body (data issue)) with
    | Raise e => Raise e
    | Ok body_lower =>
      Ok (any_in relevance_keywords (title_lower +:+ " " +:+ body_lower))
    end
  end.

(** The body of the loop over the issues of a monitored repository. *)
Definition respond_other (repo_name : string) (issue : Issue) : M unit :=
  relevant <- lift (mentions_ecommerce issue) ;;
  if relevant then
    responded <- already_responded issue ;;
    if negb responded then
      response <- lift (analyze_request self (title (data issue)) (body (data issue))) ;;
      create_comment issue response ;;
      logger_info ("Responded to " +:+ repo_name +:+ " issue #" +:+
                   str_of_int (number (data issue)))
    else ret tt
  else ret tt.

(** The body of the loop over [repos_to_monitor], with its own handler. *)
Definition monitor (cross_g : Github) (repo_name : string) : M unit :=
  try_except
    (other_repo <- get_repo cross_g repo_name ;;
     issues <- get_issues other_repo ;;
     for_each issues (respond_other repo_name))
    (fun e => logger_error ("Error monitoring " +:+ repo_name +:+ ": " +:+ str_of_exn e)).

Definition own_repository : string := "jayo2005/paint-woocommerce-operations".

Definition repos_to_monitor : list string :=
  [ "jayo2005/paint-odoo-operations";
    "jayo2005/paint-project-orchestration";
    "jayo2005/paint-wordpress-operations" ].

(** [process_issues] *)
Definition process_issues : M unit :=
  try_except
    (if negb (truthy (github_token self)) then
       logger_error "GITHUB_TOKEN not set"
     else
       g <- connect (github_token self) ;;
       cross_g <- connect (cross_repo_token self) ;;
       repo <- get_repo g own_repository ;;
       issues <- get_issues repo ;;
       for_each issues respond_own ;;
       for_each repos_to_monitor (monitor cross_g))
    (fun e =>
       logger_error ("Agent error: " +:+ str_of_exn e) ;;
       logger_error (format_exc e)).

(** The world a sweep leaves behind. *)
Definition sweep (w : World) : World := snd (process_issues w).

End Agent.

(** [main]: build the agent from the environment and run one sweep. *)
Definition main (environ : Environ) (tr : Tracker) : M unit :=
  logger_info "WooCommerce Sync Coordinator starting - Managing e-commerce integration" ;;
  process_issues tr (init environ).

(** ** Vocabulary of the statements *)

(** The open issues the tracker holds for a repository. *)
Definition issues_of (tr : Tracker) (name : string) : list IssueData :=
  default [] (open_issues tr !! name).

(** The repository an operation addresses. *)
Definition op_repo (o : Op) : string :=
  match o with
  | op_get_repo _ name => name
  | op_get_issues _ name => name
  | op_get_comments _ name _ => name
  | op_create_comment _ name _ _ => name
  end.

(** Some comment of the list bears the identity marker. *)
Definition marked (cs : list string) : bool :=
  existsb (fun comment_body => contains marker comment_body) cs.

(** The issue passes the relevance filter. *)
Definition relevant (d : IssueData) : Prop :=
  exists b, body d = Some b /\
            any_in relevance_keywords (request_text (title d) b) = true.

(** The text of the issue, if it has one, has none of the relevance
    keywords. *)
Definition irrelevant (d : IssueData) : Prop :=
  forall b, body d = Some b ->
            any_in relevance_keywords (request_text (title d) b) = false.

(** A repository the tracker knows, whose issues all have a text body and
    on which no operation ever raises. *)
Definition healthy (tr : Tracker) (name : string) : Prop :=
  is_Some (open_issues tr !! name) /\
  (forall d, In d (issues_of tr name) -> is_Some (body d)) /\
  (forall history o, op_repo o = name -> raises tr history o = None).

(** The collaborator fails on the same operations whatever happened
    before. *)
Definition stationary (tr : Tracker) : Prop :=
  forall history history' o, raises tr history o = raises tr history' o.

(** [n] sweeps in succession over the same tracker. *)
Definition sweeps (tr : Tracker) (self : WooCommerceSyncCoordinator)
    (n : nat) (w : World) : World :=
  Nat.iter n (sweep tr self) w.

(** Between [w] and [w'] the issue [k] received nothing, or it bore no
    marker and received exactly one comment, which bears the marker. *)
Definition at_most_one (k : string * Z) (w w' : World) : Prop :=
  comments_of w' k = comments_of w k \/
  (marked (comments_of w k) = false /\
   exists r, contains marker r = true /\
             comments_of w' k = comments_of w k ++ [r]).

(** Between [w] and [w'] the issue [k] received nothing. *)
Definition same_at (k : string * Z) (w w' : World) : Prop :=
  comments_of w' k = comments_of w k.

(** Every run of [m] relates the world it starts in to the one it leaves,
    whether it returns or raises. *)
Definition steps {A} (R : World -> World -> Prop) (m : M A) : Prop :=
  forall w, R w (snd (m w)).

(** The relations runs are measured with: reflexive, transitive, and blind
    to the trace. *)
Class RunRel (R : World -> World -> Prop) : Prop := {
  run_refl : forall w, R w w;
  run_trans : forall w1 w2 w3, R w1 w2 -> R w2 w3 -> R w1 w3;
  run_event : forall w ev, R w (with_event w ev)
}.

(** Every value [m] returns satisfies [V]. *)
Definition yields {A} (m : M A) (V : A -> Prop) : Prop :=
  forall w a w', m w = (Ok a, w') -> V a.

(** The first part of [process_issues]: the scan of the agent's own
    repository. *)
Definition scan_own (tr : Tracker) (self : WooCommerceSyncCoordinator)
    (g : Github) : M unit :=
  repo <- get_repo tr g own_repository ;;
  issues <- get_issues tr repo ;;
  for_each issues (respond_own tr self).

(** The exception, if any, that building the two clients of
    [process_issues] raises. *)
Definition refused (tr : Tracker) (self : WooCommerceSyncCoordinator)
  : option Exn :=
  match refuses tr (github_token self) with
  | Some e => Some e
  | None => refuses tr (cross_repo_token self)
  end.

(** The part the two loop bodies of [process_issues] share: answer the
    issue unless it already bears the marker, and log [msg]. *)
Definition reply (tr : Tracker) (self : WooCommerceSyncCoordinator)
    (issue : Issue) (msg : string) : M unit :=
  responded <- already_responded tr issue ;;
  if negb responded then
    response <- lift (analyze_request self (title (data issue)) (body (data issue))) ;;
    create_comment tr issue response ;;
    logger_info msg
  else ret tt.

(** The key of an issue object in the comment store. *)
Definition key_of (issue : Issue) : string * Z :=
  (repo issue, number (data issue)).

(** Look a repository up and list its open issues. *)
Definition fetch (tr : Tracker) (g : Github) (name : string) : M (list Issue) :=
  r <- get_repo tr g name ;;
  get_issues tr r.

(** Fetch the open issues of a repository and run [body] on each. *)
Definition visit (tr : Tracker) (g : Github) (name : string)
    (body : Issue -> M unit) : M unit :=
  issues <- fetch tr g name ;;
  for_each issues body.

(** The issue objects [get_issues] builds for a repository. *)
Definition issue_objects (tr : Tracker) (g : Github) (name : string) : list Issue :=
  map (fun d => {| via := g; repo := name; data := d |}) (issues_of tr name).

(** The trace of [w'] extends the trace of [w]. *)
Definition trace_grows (w w' : World) : Prop :=
  exists events, trace w' = trace w ++ events.

(** The answer of a stationary oracle. *)
Definition fails (tr : Tracker) (o : Op) : option Exn := raises tr [] o.

(** A loop body over issues whose second run can be predicted from its
    first: a run that raises posts nothing and raises again from any world
    with the same comments on its issue; a run that returns is silent from
    any world where its issue bears the marker it left. *)
Definition replayable (body : Issue -> M unit) : Prop :=
  forall x,
    (forall w e,
        fst (body x w) = Raise e -> comments (snd (body x w)) = comments w) /\
    (forall w w2 e,
        fst (body x w) = Raise e ->
        comments_of w2 (key_of x) = comments_of w (key_of x) ->
        fst (body x w2) = Raise e /\ comments (snd (body x w2)) = comments w2) /\
    (forall w w2,
        fst (body x w) = Ok tt ->
        (marked (comments_of (snd (body x w)) (key_of x)) = true ->
         marked (comments_of w2 (key_of x)) = true) ->
        fst (body x w2) = Ok tt /\ comments (snd (body x w2)) = comments w2) /\
    (forall k, steps (at_most_one k) (body x)).

(** ** Example trackers *)

Definition odoo_operations : string := "jayo2005/paint-odoo-operations".
Definition project_orchestration : string := "jayo2005/paint-project-orchestration".
Definition wordpress_operations : string := "jayo2005/paint-wordpress-operations".

Definition ex_environ : Environ := {[ "GITHUB_TOKEN" := "ghp_example" ]}.

Definition ex_agent : WooCommerceSyncCoordinator := init ex_environ.

Definition ex_world : World := {| comments := ∅; trace := [] |}.

Definition ex_issue1 : IssueData :=
  {| number := 1;
     title := "Product variant sync fails for colors";
     body := Some "" |}.

(** Mentions an order and a job, but none of the relevance keywords. *)
Definition ex_issue7 : IssueData :=
  {| number := 7;
     title := "Paint order stuck in warehouse";
     body := Some "The delivery job never finishes" |}.

Definition ex_issue8 : IssueData :=
  {| number := 8;
     title := "WooCommerce webhook is not delivered";
     body := Some "New orders do not arrive in Odoo" |}.

Definition ex_issue9 : IssueData :=
  {| number := 9;
     title := "Stock levels differ";
     body := Some "The online store shows paint that is sold out" |}.

Definition ex_issue3 : IssueData :=
  {| number := 3;
     title := "Plan the e-commerce rollout";
     body := Some "Which queue do we start with?" |}.

Definition ex_issues : gmap string (list IssueData) :=
  {[ own_repository := [ex_issue1];
     odoo_operations := [ex_issue7; ex_issue8; ex_issue9];
     project_orchestration := [ex_issue3];
     wordpress_operations := [] ]}.

(** A tracker on which nothing fails. *)
Definition ex_tracker : Tracker :=
  {| open_issues := ex_issues;
     refuses := fun _ => None;
     raises := fun _ _ => None |}.

(** A tracker that cannot list the issues of the agent's own repository. *)
Definition ex_tracker_own_down : Tracker :=
  {| open_issues := ex_issues;
     refuses := fun _ => None;
     raises := fun _ o =>
       match o with
       | op_get_issues _ name =>
         if String.eqb name own_repository
         then Some (GithubException "502 Bad Gateway") else None
       | _ => None
       end |}.

(** A tracker that refuses comments on issue 8 of the first monitored
    repository. *)
Definition ex_tracker_locked : Tracker :=
  {| open_issues := ex_issues;
     refuses := fun _ => None;
     raises := fun _ o =>
       match o with
       | op_create_comment _ name n _ =>
         if String.eqb name odoo_operations && (n =? 8)%Z
         then Some (GithubException "403 Forbidden") else None
       | _ => None
       end |}.

(** A deployment whose cross-repository secret is set to the empty
    string. *)
Definition ex_environ_empty_cross : Environ :=
  {[ "GITHUB_TOKEN" := "ghp_example"; "CROSS_REPO_TOKEN" := "" ]}.

(** A tracker on which nothing fails, behind a client library that refuses
    the empty token with a failed assertion. *)
Definition ex_tracker_strict : Tracker :=
  {| open_issues := ex_issues;
     refuses := fun tok =>
       match tok with
       | Some EmptyString => Some (AssertionError "")
       | _ => None
       end;
     raises := fun _ _ => None |}.

(** The operation looks the first monitored repository up. *)
Definition is_odoo_lookup (o : Op) : bool :=
  match o with
  | op_get_repo _ name => String.eqb name odoo_operations
  | _ => false
  end.

(** A tracker on which the first lookup of the first monitored repository
    fails and every later one succeeds. *)
Definition ex_tracker_flaky : Tracker :=
  {| open_issues := ex_issues;
     refuses := fun _ => None;
     raises := fun history o =>
       if is_odoo_lookup o &&
          negb (existsb (fun ev => match ev with
                                   | Call o' => is_odoo_lookup o'
                                   | _ => false
                                   end) history)
       then Some (GithubException "503 Service Unavailable") else None |}.

(** The issue objects of the first monitored repository, as the agent's
    cross-repository client gets them. *)
Definition ex_object (d : IssueData) : Issue :=
  {| via := {| token := cross_repo_token ex_agent |};
     repo := odoo_operations;
     data := d |}.

(** ** Vocabulary of the further properties *)

(** The client an operation goes through. *)
Definition op_client (o : Op) : Github :=
  match o with
  | op_get_repo g _ => g
  | op_get_issues g _ => g
  | op_get_comments g _ _ => g
  | op_create_comment g _ _ _ => g
  end.

(** The pairs of client and repository [process_issues] is written for:
    the own repository through the client of [github_token], a monitored
    repository through the client of [cross_repo_token]. *)
Definition configured (self : WooCommerceSyncCoordinator)
    (g : Github) (name : string) : Prop :=
  (g = {| token := github_token self |} /\ name = own_repository) \/
  (g = {| token := cross_repo_token self |} /\ In name repos_to_monitor).

Definition configured_event (self : WooCommerceSyncCoordinator)
    (ev : Event) : Prop :=
  match ev with
  | Call o => configured self (op_client o) (op_repo o)
  | _ => True
  end.

(** Properties of the events a run appends: they hold of no event and of
    the events of two runs in succession. *)
Class TraceProp (P : list Event -> Prop) : Prop := {
  trace_nil : P [];
  trace_app : forall a b, P a -> P b -> P (a ++ b)
}.

(** Every run of [m] appends events that satisfy [P]. *)
Definition emits {A} (P : list Event -> Prop) (m : M A) : Prop :=
  forall w, exists events, trace (snd (m w)) = trace w ++ events /\ P events.

(** What an event may follow: a [create_comment] call follows the
    [get_comments] call on the same issue through the same client and
    carries a text with the marker; an info record follows a
    [create_comment] call. *)
Definition event_ok (prev : option Event) (ev : Event) : Prop :=
  match ev with
  | Call (op_create_comment g name n text) =>
    prev = Some (Call (op_get_comments g name n)) /\
    contains marker text = true
  | LogInfo _ =>
    exists g name n text, prev = Some (Call (op_create_comment g name n text))
  | _ => True
  end.

Fixpoint disciplined_from (prev : option Event) (events : list Event) : Prop :=
  match events with
  | [] => True
  | ev :: rest => event_ok prev ev /\ disciplined_from (Some ev) rest
  end.

Definition disciplined (events : list Event) : Prop :=
  disciplined_from None events.

(** Between [w] and [w'] the issue [k] received nothing, or it bore no
    marker and received exactly one comment, which bears the marker and
    satisfies [Q]. *)
Definition posted_from (Q : string -> Prop) (k : string * Z) (w w' : World) : Prop :=
  comments_of w' k = comments_of w k \/
  (marked (comments_of w k) = false /\
   exists r, Q r /\ contains marker r = true /\
             comments_of w' k = comments_of w k ++ [r]).

(** [r] is the response to an open issue the tracker lists under the key
    [k], which passes the relevance filter if its repository is a
    monitored one. *)
Definition answer_to (tr : Tracker) (self : WooCommerceSyncCoordinator)
    (k : string * Z) (r : string) : Prop :=
  exists d b,
    In d (issues_of tr (fst k)) /\ number d = snd k /\ body d = Some b /\
    (In (fst k) repos_to_monitor -> relevant d) /\
    r = respond self (category_of (request_text (title d) b)) (title d) (Some b).

(** The string has no space. *)
Fixpoint no_space (s : string) : bool :=
  match s with
  | EmptyString => true
  | String c s' => negb (Ascii.eqb c " ") && no_space s'
  end.

(** * Properties *)

(** ** Substring test and lower-casing *)

Lemma append_assoc (a b c : string) : (a +:+ b) +:+ c = a +:+ (b +:+ c).
Proof. induction a as [|x a IH]; simpl; [reflexivity | congruence]. Qed.

Lemma length_append (a b : string) :
  String.length (a +:+ b) = String.length a + String.length b.
Proof. induction a as [|x a IH]; simpl; [reflexivity | congruence]. Qed.

Lemma append_cancel_r (a b c : string) : a +:+ c = b +:+ c -> a = b.
Proof.
  revert b. induction a as [|x a IH]; intros [|y b] H; simpl in H.
  - reflexivity.
  - apply (f_equal String.length) in H. simpl in H.
    rewrite length_append in H. lia.
  - apply (f_equal String.length) in H. simpl in H.
    rewrite length_append in H. lia.
  - injection H as -> H. f_equal. now apply IH.
Qed.

Lemma startswith_append (p b : string) : startswith p (p +:+ b) = true.
Proof.
  induction p as [|c p IH]; simpl; [reflexivity |].
  now rewrite Ascii.eqb_refl, IH.
Qed.

Lemma startswith_inv (p s : string) :
  startswith p s = true -> exists b, s = p +:+ b.
Proof.
  revert s. induction p as [|c p IH]; intros s H.
  - now exists s.
  - destruct s as [|d s]; simpl in H; [discriminate |].
    apply andb_true_iff in H as [Hc Hp].
    apply Ascii.eqb_eq in Hc as ->.
    destruct (IH _ Hp) as [b ->]. now exists b.
Qed.

Lemma contains_intro (a p b : string) : contains p (a +:+ p +:+ b) = true.
Proof.
  induction a as [|x a IH]; simpl.
  - destruct (p +:+ b) eqn:E; simpl; rewrite <- E, startswith_append;
      reflexivity.
  - rewrite IH. apply orb_true_r.
Qed.

Lemma contains_inv (p s : string) :
  contains p s = true -> exists a b, s = a +:+ p +:+ b.
Proof.
  induction s as [|x s IH]; simpl; intros H.
  - rewrite orb_false_r in H. destruct (startswith_inv _ _ H) as [b Hb].
    now exists "", b.
  - apply orb_true_iff in H as [H | H].
    + destruct (startswith_inv _ _ H) as [b Hb]. now exists "", b.
    + destruct (IH H) as (a & b & ->). now exists (String x a), b.
Qed.

(** [contains] is the substring test. *)
Lemma contains_iff (p s : string) :
  contains p s = true <-> exists a b, s = a +:+ p +:+ b.
Proof.
  split; [apply contains_inv |]. intros (a & b & ->). apply contains_intro.
Qed.

Lemma contains_append_l (p a b : string) :
  contains p a = true -> contains p (a +:+ b) = true.
Proof.
  intros H. apply contains_inv in H as (u & v & ->).
  rewrite !append_assoc. apply contains_intro.
Qed.

Lemma contains_append_r (p a b : string) :
  contains p b = true -> contains p (a +:+ b) = true.
Proof.
  intros H. apply contains_inv in H as (u & v & ->).
  rewrite <- append_assoc. apply contains_intro.
Qed.

Lemma lower_append (a b : string) : lower (a +:+ b) = lower a +:+ lower b.
Proof. induction a as [|x a IH]; simpl; [reflexivity | congruence]. Qed.

(** A keyword written in lower case survives lower-casing of the text. *)
Lemma contains_lower (p s : string) :
  lower p = p -> contains p s = true -> contains p (lower s) = true.
Proof.
  intros Hp H. apply contains_inv in H as (u & v & ->).
  rewrite !lower_append, Hp. apply contains_intro.
Qed.

Lemma any_in_true (words : list string) (text : string) :
  any_in words text = true <->
  exists word, In word words /\ contains word text = true.
Proof. unfold any_in. apply existsb_exists. Qed.

Example lower_example : lower "How To SETUP Webhook-42" = "how to setup webhook-42".
Proof. reflexivity. Qed.

Example contains_example :
  contains "sync" "product sync" = true /\ contains "sync" "sink" = false /\
  contains "" "" = true.
Proof. repeat split. Qed.

Lemma append_empty_r (a : string) : a +:+ "" = a.
Proof. induction a as [|x a IH]; simpl; [reflexivity | congruence]. Qed.

Lemma is_ascii_append (a b : string) :
  is_ascii (a +:+ b) = is_ascii a && is_ascii b.
Proof.
  induction a as [|x a IH]; simpl; [reflexivity |].
  now rewrite IH, andb_assoc.
Qed.

Lemma lower_ascii_below_128 (c : ascii) :
  (N_of_ascii (lower_ascii c) <? 128)%N = (N_of_ascii c <? 128)%N.
Proof. destruct c as [[] [] [] [] [] [] [] []]; reflexivity. Qed.

Lemma is_ascii_lower (s : string) : is_ascii (lower s) = is_ascii s.
Proof.
  induction s as [|x s IH]; simpl; [reflexivity |].
  now rewrite lower_ascii_below_128, IH.
Qed.

(** A word whose lower-case form is in a list of ASCII words is ASCII. *)
Lemma in_ascii_words (words : list string) (v : string) :
  forallb is_ascii words = true -> In (lower v) words -> is_ascii v = true.
Proof.
  intros Hall Hin. rewrite <- is_ascii_lower.
  rewrite forallb_forall in Hall. now apply Hall.
Qed.

(** ** What is known of [str_lower] *)

Lemma str_lower_ascii (s : string) : is_ascii s = true -> str_lower s = lower s.
Proof.
  intros H. destruct (str_lower_ascii_infix "" s "" H) as (x & y & E & Hx & Hy).
  rewrite (Hx eq_refl), (Hy eq_refl) in E.
  simpl in E. now rewrite !append_empty_r in E.
Qed.

(** An ASCII word of the text is found, lower-cased, in the lower-cased
    text. *)
Lemma contains_str_lower (v s : string) :
  is_ascii v = true -> contains v s = true ->
  contains (lower v) (str_lower s) = true.
Proof.
  intros Hv H. apply contains_inv in H as (a & c & ->).
  destruct (str_lower_ascii_infix a v c Hv) as (x & y & E & _).
  rewrite E. apply contains_intro.
Qed.

Lemma request_text_ascii (t b : string) :
  is_ascii t = true -> is_ascii b = true ->
  request_text t b = lower t +:+ " " +:+ lower b.
Proof. intros Ht Hb. unfold request_text. now rewrite !str_lower_ascii. Qed.

(** ** The classifier *)

Lemma category_of_first_match (text : string) :
  category_of text = first_match priority_table text.
Proof. reflexivity. Qed.

Lemma analyze_request_classify self (t : string) (b : option string) :
  analyze_request self t b =
  match classify t b with
  | Ok c => Ok (respond self c t b)
  | Raise e => Raise e
  end.
Proof.
  unfold analyze_request, classify, category_of.
  destruct (py_lower (Some t)) as [tl | e]; [| reflexivity].
  destruct (py_lower b) as [bl | e]; [| reflexivity].
  cbv zeta.
  repeat match goal with
         | |- context [if any_in ?ws ?x then _ else _] =>
           destruct (any_in ws x); [reflexivity |]
         end.
  reflexivity.
Qed.

Lemma classify_text (t b : string) :
  classify t (Some b) = Ok (category_of (request_text t b)).
Proof. reflexivity. Qed.

(** Every response starts with a heading that carries the marker and, from
    its 46th byte on, tells the categories apart. *)
Lemma respond_marker self c (t : string) (b : option string) :
  contains marker (respond self c t b) = true.
Proof.
  destruct c; cbn [respond];
    unfold handle_product_sync_request, handle_order_sync_request,
      handle_job_queue_request, handle_configuration_request,
      general_response;
    try (apply contains_append_l); vm_compute; reflexivity.
Qed.

Lemma respond_inj self c c' (t t' : string) (b b' : option string) :
  respond self c t b = respond self c' t' b' -> c = c'.
Proof.
  intros H. apply (f_equal (substring 0 52)) in H.
  destruct c, c'; try reflexivity; vm_compute in H; discriminate H.
Qed.

Lemma analyze_request_marker self (t : string) (b : option string) (r : string) :
  analyze_request self t b = Ok r -> contains marker r = true.
Proof.
  rewrite analyze_request_classify.
  destruct (classify t b) as [c | e]; [| discriminate].
  intros [= <-]. apply respond_marker.
Qed.

(** ** Reasoning about runs *)

Section Steps.

Context {R : World -> World -> Prop} `{!RunRel R}.

Lemma steps_ret {A} (a : A) : steps R (ret a).
Proof. intros w. apply run_refl. Qed.

Lemma steps_raise {A} (e : Exn) : steps R (@raise A e).
Proof. intros w. apply run_refl. Qed.

Lemma steps_lift {A} (r : result A) : steps R (lift r).
Proof. intros w. apply run_refl. Qed.

Lemma steps_emit (ev : Event) : steps R (emit ev).
Proof. intros w. apply run_event. Qed.

Lemma steps_invoke tr (o : Op) : steps R (invoke tr o).
Proof.
  intros w. unfold invoke.
  destruct (raises tr (trace w) o); apply run_event.
Qed.

Lemma steps_bind_yields {A B} (m : M A) (k : A -> M B) (V : A -> Prop) :
  steps R m -> yields m V -> (forall a, V a -> steps R (k a)) ->
  steps R (bind m k).
Proof.
  intros Hm Hy Hk w. unfold bind.
  specialize (Hm w). destruct (m w) as [[a | e] w'] eqn:E; simpl in Hm.
  - eapply run_trans; [exact Hm |]. apply Hk. eapply Hy. exact E.
  - exact Hm.
Qed.

Lemma steps_bind {A B} (m : M A) (k : A -> M B) :
  steps R m -> (forall a, steps R (k a)) -> steps R (bind m k).
Proof.
  intros Hm Hk.
  apply (steps_bind_yields m k (fun _ => True)); auto. now intros w a w' _.
Qed.

Lemma steps_try {A} (m : M A) (h : Exn -> M A) :
  steps R m -> (forall e, steps R (h e)) -> steps R (try_except m h).
Proof.
  intros Hm Hh w. unfold try_except.
  specialize (Hm w). destruct (m w) as [[a | e] w'] eqn:E; simpl in Hm.
  - exact Hm.
  - eapply run_trans; [exact Hm |]. apply Hh.
Qed.

Lemma steps_for_each {A} (xs : list A) (body : A -> M unit) :
  (forall x, In x xs -> steps R (body x)) -> steps R (for_each xs body).
Proof.
  induction xs as [| x xs IH]; intros H; simpl.
  - apply steps_ret.
  - apply steps_bind; [apply H; now left |].
    intros _. apply IH. intros y Hy. apply H. now right.
Qed.

Lemma steps_connect tr tok : steps R (connect tr tok).
Proof.
  intros w. unfold connect. destruct (refuses tr tok); apply run_refl.
Qed.

Lemma steps_get_repo tr g name : steps R (get_repo tr g name).
Proof.
  unfold get_repo. apply steps_bind; [apply steps_invoke |]. intros _.
  destruct (open_issues tr !! name); [apply steps_ret | apply steps_raise].
Qed.

Lemma steps_get_issues tr r : steps R (get_issues tr r).
Proof.
  unfold get_issues. apply steps_bind; [apply steps_invoke |]. intros _.
  apply steps_ret.
Qed.

Lemma yields_connect tr tok :
  yields (connect tr tok) (fun g => g = {| token := tok |}).
Proof.
  intros w g w'. unfold connect. destruct (refuses tr tok); [discriminate |].
  now intros [= <- _].
Qed.

Lemma yields_get_repo tr g name :
  yields (get_repo tr g name) (fun r => client r = g /\ full_name r = name).
Proof.
  intros w r w'. unfold get_repo, bind, invoke, ret, raise.
  destruct (raises tr (trace w) _); [discriminate |].
  destruct (open_issues tr !! name); [| discriminate].
  intros [= <- _]. now split.
Qed.

Lemma yields_get_issues tr r :
  yields (get_issues tr r)
    (fun issues =>
       forall i, In i issues ->
         via i = client r /\ repo i = full_name r /\
         In (data i) (issues_of tr (full_name r))).
Proof.
  intros w issues w'. unfold get_issues, bind, invoke, ret.
  destruct (raises tr (trace w) _); [discriminate |].
  intros [= <- _] i Hi. apply in_map_iff in Hi as (d & <- & Hd).
  now repeat split.
Qed.

Lemma steps_monitor tr self g name :
  (forall issue,
      repo issue = name -> In (data issue) (issues_of tr name) ->
      steps R (respond_other tr self name issue)) ->
  steps R (monitor tr self g name).
Proof.
  intros H. unfold monitor. apply steps_try.
  - eapply steps_bind_yields;
      [apply steps_get_repo | apply yields_get_repo |].
    intros r [_ Hr].
    eapply steps_bind_yields;
      [apply steps_get_issues | apply yields_get_issues |].
    intros issues Hi. apply steps_for_each. intros x Hx.
    destruct (Hi x Hx) as (_ & Hrepo & Hin). rewrite Hr in *.
    now apply H.
  - intros e. apply steps_emit.
Qed.

Lemma steps_process_issues tr self :
  (forall issue,
      repo issue = own_repository ->
      In (data issue) (issues_of tr own_repository) ->
      steps R (respond_own tr self issue)) ->
  (forall name issue,
      In name repos_to_monitor ->
      repo issue = name -> In (data issue) (issues_of tr name) ->
      steps R (respond_other tr self name issue)) ->
  steps R (process_issues tr self).
Proof.
  intros Hown Hother. unfold process_issues. apply steps_try.
  - destruct (negb (truthy (github_token self))); [apply steps_emit |].
    apply steps_bind; [apply steps_connect |]. intros g.
    apply steps_bind; [apply steps_connect |]. intros cross_g.
    eapply steps_bind_yields;
      [apply steps_get_repo | apply yields_get_repo |].
    intros r [_ Hr].
    eapply steps_bind_yields;
      [apply steps_get_issues | apply yields_get_issues |].
    intros issues Hi. apply steps_bind.
    + apply steps_for_each. intros x Hx.
      destruct (Hi x Hx) as (_ & Hrepo & Hin). rewrite Hr in *.
      now apply Hown.
    + intros _. apply steps_for_each. intros name Hname.
      apply steps_monitor. intros issue. now apply Hother.
  - intros e. apply steps_bind; [apply steps_emit |].
    intros _. apply steps_emit.
Qed.

End Steps.

(** ** One issue *)

Lemma respond_own_reply tr self issue :
  respond_own tr self issue =
  reply tr self issue
    ("Responded to issue #" +:+ str_of_int (number (data issue))).
Proof. reflexivity. Qed.

Lemma respond_other_reply tr self name issue :
  respond_other tr self name issue =
  (relevant <- lift (mentions_ecommerce issue) ;;
   if relevant then
     reply tr self issue
       ("Responded to " +:+ name +:+ " issue #" +:+
        str_of_int (number (data issue)))
   else ret tt)%py.
Proof. reflexivity. Qed.

Lemma comments_of_event w ev k : comments_of (with_event w ev) k = comments_of w k.
Proof. reflexivity. Qed.

Lemma comments_of_insert (c : gmap (string * Z) (list string)) t k v k' :
  comments_of {| comments := <[k := v]> c; trace := t |} k' =
  if decide (k = k') then v else default [] (c !! k').
Proof.
  unfold comments_of; simpl. rewrite lookup_insert.
  destruct (decide (k = k')); reflexivity.
Qed.

Lemma marked_snoc cs r : marked (cs ++ [r]) = marked cs || contains marker r.
Proof. unfold marked. rewrite existsb_app. simpl. now rewrite orb_false_r. Qed.

(** What [reply] does, case by case. *)
Lemma reply_eval tr self issue msg w :
  reply tr self issue msg w =
  let k := key_of issue in
  let get := op_get_comments (via issue) (repo issue) (number (data issue)) in
  let w1 := with_event w (Call get) in
  match raises tr (trace w) get with
  | Some e => (Raise e, w1)
  | None =>
    if marked (comments_of w k) then (Ok tt, w1)
    else
      match analyze_request self (title (data issue)) (body (data issue)) with
      | Raise e => (Raise e, w1)
      | Ok text =>
        let post :=
          op_create_comment (via issue) (repo issue) (number (data issue)) text in
        let w2 := with_event w1 (Call post) in
        match raises tr (trace w1) post with
        | Some e => (Raise e, w2)
        | None =>
          (Ok tt,
           with_event
             {| comments := <[k := comments_of w k ++ [text]]> (comments w);
                trace := trace w2 |}
             (LogInfo msg))
        end
      end
  end.
Proof.
  unfold reply, already_responded, get_comments, create_comment, bind, ret,
    lift, invoke, logger_info, emit, key_of, marked.
  cbv zeta.
  destruct (raises tr (trace w) _) as [e |]; [reflexivity |].
  rewrite comments_of_event.
  destruct (existsb _ (comments_of w _)); [reflexivity |].
  change (negb false) with true. cbv iota beta.
  destruct (analyze_request self _ _) as [text | e]; [| reflexivity].
  destruct (raises tr _ _) as [e |]; reflexivity.
Qed.

#[local] Instance at_most_one_run k : RunRel (at_most_one k).
Proof.
  split.
  - intros w. now left.
  - intros w1 w2 w3 [E12 | (U1 & r & Hr & E12)] [E23 | (U2 & s & Hs & E23)].
    + left. congruence.
    + right. rewrite E12 in *. split; [exact U2 |]. now exists s.
    + right. split; [exact U1 |]. exists r. split; [exact Hr | congruence].
    + rewrite E12, marked_snoc, Hr, orb_true_r in U2. discriminate.
  - intros w ev. now left.
Qed.

#[local] Instance same_at_run k : RunRel (same_at k).
Proof.
  split; unfold same_at.
  - reflexivity.
  - intros w1 w2 w3 E12 E23. congruence.
  - reflexivity.
Qed.

(** [reply] adds at most one comment, to its own issue, and only where
    no comment bears the marker. *)
Lemma reply_at_most_one tr self issue msg k :
  steps (at_most_one k) (reply tr self issue msg).
Proof.
  intros w. rewrite reply_eval. cbv zeta.
  destruct (raises tr (trace w) _); [now left |].
  destruct (marked (comments_of w (key_of issue))) eqn:Hm; [now left |].
  destruct (analyze_request self _ _) as [text | e] eqn:Ha; [| now left].
  destruct (raises tr _ _); [now left |].
  unfold at_most_one. simpl snd.
  rewrite comments_of_event, comments_of_insert.
  destruct (decide (key_of issue = k)) as [<- | Hne].
  - right. split; [exact Hm |]. exists text. split; [| reflexivity].
    eapply analyze_request_marker. exact Ha.
  - now left.
Qed.

Lemma reply_same_at tr self issue msg k :
  key_of issue <> k -> steps (same_at k) (reply tr self issue msg).
Proof.
  intros Hne w. rewrite reply_eval. cbv zeta.
  destruct (raises tr (trace w) _); [reflexivity |].
  destruct (marked (comments_of w (key_of issue))); [reflexivity |].
  destruct (analyze_request self _ _) as [text | e]; [| reflexivity].
  destruct (raises tr _ _); [reflexivity |].
  unfold same_at. simpl snd.
  rewrite comments_of_event, comments_of_insert.
  destruct (decide (key_of issue = k)); [contradiction | reflexivity].
Qed.

(** A [reply] that raises has posted nothing. *)
Lemma reply_raise_quiet tr self issue msg w e :
  fst (reply tr self issue msg w) = Raise e ->
  comments (snd (reply tr self issue msg w)) = comments w.
Proof.
  rewrite reply_eval. cbv zeta.
  destruct (raises tr (trace w) _); [reflexivity |].
  destruct (marked (comments_of w (key_of issue))); [reflexivity |].
  destruct (analyze_request self _ _) as [text | e']; [| reflexivity].
  destruct (raises tr _ _); [reflexivity | discriminate].
Qed.

Lemma respond_other_at_most_one tr self name issue k :
  steps (at_most_one k) (respond_other tr self name issue).
Proof.
  rewrite respond_other_reply. apply steps_bind; [apply steps_lift |].
  intros [|]; [apply reply_at_most_one | apply steps_ret].
Qed.

Lemma mentions_ecommerce_irrelevant issue :
  irrelevant (data issue) -> mentions_ecommerce issue <> Ok true.
Proof.
  unfold irrelevant, mentions_ecommerce, py_lower. intros H.
  destruct (body (data issue)) as [b |]; [| discriminate].
  specialize (H b eq_refl). unfold request_text in H. rewrite H. discriminate.
Qed.

Lemma respond_other_same_at tr self name issue k :
  key_of issue <> k \/ irrelevant (data issue) ->
  steps (same_at k) (respond_other tr self name issue).
Proof.
  intros H. rewrite respond_other_reply.
  eapply (steps_bind_yields _ _ (fun rel => rel = true -> key_of issue <> k)).
  - apply steps_lift.
  - intros w rel w'. unfold lift. intros [= Hrel _] ->.
    destruct H as [H | H]; [exact H |].
    now apply mentions_ecommerce_irrelevant in H.
  - intros [|] Hk; [apply reply_same_at; now apply Hk | apply steps_ret].
Qed.

(** ** One sweep, many sweeps *)

Lemma sweep_at_most_one tr self k w : at_most_one k w (sweep tr self w).
Proof.
  apply (steps_process_issues (R := at_most_one k)).
  - intros issue _ _. rewrite respond_own_reply. apply reply_at_most_one.
  - intros name issue _ _ _. apply respond_other_at_most_one.
Qed.

Lemma sweeps_at_most_one tr self k n w : at_most_one k w (sweeps tr self n w).
Proof.
  induction n as [| n IH]; simpl.
  - apply run_refl.
  - eapply run_trans; [exact IH | apply sweep_at_most_one].
Qed.

Lemma own_repository_not_monitored : ~ In own_repository repos_to_monitor.
Proof. vm_compute. intuition discriminate. Qed.

Lemma repos_to_monitor_NoDup : List.NoDup repos_to_monitor.
Proof.
  unfold repos_to_monitor.
  repeat constructor; vm_compute; intuition discriminate.
Qed.

(** ** The shape of a sweep *)

Lemma bind_assoc {A B C} (m : M A) (f : A -> M B) (g : B -> M C) w :
  bind (bind m f) g w = bind m (fun a => bind (f a) g) w.
Proof. unfold bind. destruct (m w) as [[a | e] w']; reflexivity. Qed.

Lemma scan_own_visit tr self g w :
  scan_own tr self g w = visit tr g own_repository (respond_own tr self) w.
Proof. unfold scan_own, visit, fetch. now rewrite bind_assoc. Qed.

Lemma monitor_visit tr self g name w :
  monitor tr self g name w =
  try_except (visit tr g name (respond_other tr self name))
    (fun e => logger_error
                ("Error monitoring " +:+ name +:+ ": " +:+ str_of_exn e)) w.
Proof. unfold monitor, try_except, visit, fetch. now rewrite bind_assoc. Qed.

Lemma refused_none tr self :
  refused tr self = None <->
  refuses tr (github_token self) = None /\
  refuses tr (cross_repo_token self) = None.
Proof.
  unfold refused. destruct (refuses tr (github_token self)); split.
  - discriminate.
  - now intros [H _].
  - now split.
  - now intros [_ H].
Qed.

Lemma process_issues_truthy tr self w :
  truthy (github_token self) = true ->
  refused tr self = None ->
  process_issues tr self w =
  try_except
    (scan_own tr self {| token := github_token self |} ;;
     for_each repos_to_monitor
       (monitor tr self {| token := cross_repo_token self |}))
    (fun e =>
       logger_error ("Agent error: " +:+ str_of_exn e) ;;
       logger_error (format_exc e)) w.
Proof.
  intros H Hr. apply refused_none in Hr as [Hg Hc].
  unfold process_issues, try_except, scan_own, bind, connect. rewrite H, Hg.
  change (negb true) with false. cbv beta iota zeta. rewrite Hc.
  cbv beta iota zeta.
  destruct (get_repo tr _ own_repository w) as [[r | e] w1]; [| reflexivity].
  destruct (get_issues tr r w1) as [[issues | e] w2]; [| reflexivity].
  destruct (for_each issues _ w2) as [[[] | e] w3]; reflexivity.
Qed.

(** When the constructor refuses one of the two tokens, the exception
    reaches the outer handler before anybody is contacted. *)
Lemma process_issues_refused tr self w e :
  truthy (github_token self) = true ->
  refused tr self = Some e ->
  process_issues tr self w =
  (Ok tt,
   with_event (with_event w (LogError ("Agent error: " +:+ str_of_exn e)))
     (LogError (format_exc e))).
Proof.
  intros H Hr. unfold refused in Hr.
  unfold process_issues, try_except, bind, connect. rewrite H.
  change (negb true) with false. cbv beta iota zeta.
  destruct (refuses tr (github_token self)) as [e' |].
  - injection Hr as ->. reflexivity.
  - cbv beta iota zeta. rewrite Hr. reflexivity.
Qed.

Lemma process_issues_falsy tr self w :
  truthy (github_token self) = false ->
  process_issues tr self w =
  (Ok tt, with_event w (LogError "GITHUB_TOKEN not set")).
Proof.
  intros H. unfold process_issues, try_except. rewrite H. reflexivity.
Qed.

(** The handlers only log, so neither [monitor] nor [process_issues] ever
    raises. *)
Lemma monitor_ok tr self g name w : fst (monitor tr self g name w) = Ok tt.
Proof.
  unfold monitor, try_except.
  destruct (bind _ _ w) as [[[] | e] w']; reflexivity.
Qed.

Lemma process_issues_ok tr self w : fst (process_issues tr self w) = Ok tt.
Proof.
  unfold process_issues, try_except.
  destruct (_ w) as [[[] | e] w']; reflexivity.
Qed.

Lemma for_each_ok {A} (xs : list A) (body : A -> M unit) :
  (forall x w, In x xs -> fst (body x w) = Ok tt) ->
  forall w, fst (for_each xs body w) = Ok tt.
Proof.
  induction xs as [| x xs IH]; intros H w; simpl; [reflexivity |].
  unfold bind. specialize (H x w (or_introl eq_refl)) as Hx.
  destruct (body x w) as [[[] | e] w']; simpl in Hx; [| discriminate].
  apply IH. intros y w0 Hy. apply H. now right.
Qed.

(** A loop whose bodies all return reaches every property one of them
    establishes and the others keep. *)
Lemma for_each_reaches {A} (R : World -> World -> Prop) `{!RunRel R}
    (P : World -> Prop) (xs : list A) (body : A -> M unit) :
  (forall w w', R w w' -> P w -> P w') ->
  (forall x, In x xs -> steps R (body x)) ->
  (forall x w, In x xs -> fst (body x w) = Ok tt) ->
  (exists x, In x xs /\ forall w, P (snd (body x w))) ->
  forall w, P (snd (for_each xs body w)).
Proof.
  intros Hkeep. induction xs as [| x xs IH]; intros Hsteps Hok (y & Hy & HP) w.
  - destruct Hy.
  - simpl. unfold bind.
    pose proof (Hok x w (or_introl eq_refl)) as Hx.
    pose proof (HP w) as HPw.
    destruct (body x w) as [[[] | e] w'] eqn:E; simpl in Hx; [| discriminate].
    destruct Hy as [-> | Hy].
    + rewrite E in HPw. simpl in HPw.
      eapply Hkeep; [| exact HPw].
      apply (steps_for_each (R := R)). intros z Hz. apply Hsteps. now right.
    + apply IH.
      * intros z Hz. apply Hsteps. now right.
      * intros z w0 Hz. apply Hok. now right.
      * exists y. now split.
Qed.

(** The loop stops at the first body that raises. *)
Lemma for_each_aborts {A} (pre rest : list A) (x : A) (body : A -> M unit)
    w w1 w2 e :
  for_each pre body w = (Ok tt, w1) ->
  body x w1 = (Raise e, w2) ->
  for_each (pre ++ x :: rest) body w = (Raise e, w2).
Proof.
  revert w. induction pre as [| p pre IH]; intros w Hpre Hx; simpl in *.
  - unfold ret in Hpre. injection Hpre as <-. unfold bind. now rewrite Hx.
  - unfold bind in *. destruct (body p w) as [[[] | e'] w'].
    + now apply IH.
    + discriminate.
Qed.

(** ** Healthy repositories *)

Lemma fetch_healthy tr g name w :
  healthy tr name ->
  fetch tr g name w =
  (Ok (issue_objects tr g name),
   with_event (with_event w (Call (op_get_repo g name)))
     (Call (op_get_issues g name))).
Proof.
  intros ([l Hl] & _ & Hno).
  unfold fetch, get_repo, get_issues, bind, invoke, ret, issue_objects, issues_of.
  rewrite Hno by reflexivity. rewrite Hl.
  simpl. rewrite Hno by reflexivity. rewrite Hl. reflexivity.
Qed.

Lemma analyze_request_text self (t b : string) :
  analyze_request self t (Some b) =
  Ok (respond self (category_of (request_text t b)) t (Some b)).
Proof. now rewrite analyze_request_classify, classify_text. Qed.

Lemma at_most_one_marked k w w' :
  at_most_one k w w' ->
  marked (comments_of w k) = true -> marked (comments_of w' k) = true.
Proof.
  intros [E | (U & _)] H; [now rewrite E | congruence].
Qed.

(** In a healthy repository [reply] returns and leaves the issue marked. *)
Lemma reply_healthy tr self issue msg w :
  healthy tr (repo issue) -> is_Some (body (data issue)) ->
  fst (reply tr self issue msg w) = Ok tt /\
  marked (comments_of (snd (reply tr self issue msg w)) (key_of issue)) = true.
Proof.
  intros (_ & _ & Hno) [b Hb]. rewrite reply_eval. cbv zeta.
  rewrite Hno by reflexivity.
  destruct (marked (comments_of w (key_of issue))) eqn:Hm.
  - split; [reflexivity |]. simpl snd. now rewrite comments_of_event.
  - rewrite Hb, analyze_request_text. rewrite Hno by reflexivity.
    split; [reflexivity |]. simpl snd.
    rewrite comments_of_event, comments_of_insert.
    destruct (decide (key_of issue = key_of issue)); [| contradiction].
    rewrite marked_snoc, respond_marker. apply orb_true_r.
Qed.

Lemma respond_other_healthy tr self name issue w :
  healthy tr (repo issue) -> is_Some (body (data issue)) ->
  fst (respond_other tr self name issue w) = Ok tt /\
  (relevant (data issue) ->
   marked (comments_of (snd (respond_other tr self name issue w)) (key_of issue))
   = true).
Proof.
  intros Hh Hb. rewrite respond_other_reply.
  unfold bind, lift, mentions_ecommerce, py_lower.
  destruct Hb as [b Hb]. rewrite Hb.
  destruct (any_in relevance_keywords _) eqn:Hrel.
  - destruct (reply_healthy tr self issue
                ("Responded to " +:+ name +:+ " issue #" +:+
                 str_of_int (number (data issue))) w Hh) as [H1 H2];
      [now exists b |].
    split; [exact H1 | intros _; exact H2].
  - split; [reflexivity |]. intros (b' & Hb' & Hr).
    rewrite Hb in Hb'. injection Hb' as <-.
    unfold request_text in Hr. congruence.
Qed.

Lemma issue_objects_spec tr g name issue :
  In issue (issue_objects tr g name) ->
  via issue = g /\ repo issue = name /\ In (data issue) (issues_of tr name).
Proof.
  unfold issue_objects. intros H. apply in_map_iff in H as (d & <- & Hd).
  now repeat split.
Qed.

Lemma respond_own_at_most_one tr self issue k :
  steps (at_most_one k) (respond_own tr self issue).
Proof. rewrite respond_own_reply. apply reply_at_most_one. Qed.

Lemma monitor_at_most_one tr self g name k :
  steps (at_most_one k) (monitor tr self g name).
Proof.
  apply steps_monitor. intros issue _ _. apply respond_other_at_most_one.
Qed.

Lemma monitors_at_most_one tr self g names k :
  steps (at_most_one k) (for_each names (monitor tr self g)).
Proof. apply steps_for_each. intros name _. apply monitor_at_most_one. Qed.

Lemma scan_own_healthy tr self g w :
  healthy tr own_repository ->
  fst (scan_own tr self g w) = Ok tt /\
  forall d, In d (issues_of tr own_repository) ->
    marked (comments_of (snd (scan_own tr self g w)) (own_repository, number d))
    = true.
Proof.
  intros Hh. rewrite scan_own_visit. unfold visit, bind.
  rewrite (fetch_healthy _ _ _ _ Hh).
  set (w0 := with_event _ _).
  assert (Hok : forall x w1, In x (issue_objects tr g own_repository) ->
                             fst (respond_own tr self x w1) = Ok tt).
  { intros x w1 Hx. apply issue_objects_spec in Hx as (_ & Hr & Hd).
    rewrite respond_own_reply. apply reply_healthy.
    - now rewrite Hr.
    - destruct Hh as (_ & Hb & _). now apply Hb. }
  split; [now apply for_each_ok |].
  intros d Hd.
  apply (for_each_reaches (at_most_one (own_repository, number d))
           (fun w1 => marked (comments_of w1 (own_repository, number d)) = true)).
  - intros w1 w2. apply at_most_one_marked.
  - intros x _. apply respond_own_at_most_one.
  - exact Hok.
  - exists {| via := g; repo := own_repository; data := d |}. split.
    + unfold issue_objects. apply in_map_iff. now exists d.
    + intros w1. rewrite respond_own_reply.
      apply (reply_healthy tr self {| via := g; repo := own_repository; data := d |}).
      * exact Hh.
      * destruct Hh as (_ & Hb & _). now apply Hb.
Qed.

Lemma monitor_healthy tr self g name w d :
  healthy tr name -> In d (issues_of tr name) -> relevant d ->
  marked (comments_of (snd (monitor tr self g name w)) (name, number d)) = true.
Proof.
  intros Hh Hd Hrel. rewrite monitor_visit. unfold try_except, visit, bind.
  rewrite (fetch_healthy _ _ _ _ Hh).
  set (w0 := with_event _ _).
  assert (Hok : forall x w1, In x (issue_objects tr g name) ->
                             fst (respond_other tr self name x w1) = Ok tt).
  { intros x w1 Hx. apply issue_objects_spec in Hx as (_ & Hr & Hx).
    apply respond_other_healthy.
    - now rewrite Hr.
    - destruct Hh as (_ & Hb & _). now apply Hb. }
  pose proof (for_each_ok _ _ Hok w0) as Hloop.
  assert (Hmark :
    marked (comments_of
              (snd (for_each (issue_objects tr g name)
                      (respond_other tr self name) w0))
              (name, number d)) = true).
  { apply (for_each_reaches (at_most_one (name, number d))
             (fun w1 => marked (comments_of w1 (name, number d)) = true)).
    - intros w1 w2. apply at_most_one_marked.
    - intros x _. apply respond_other_at_most_one.
    - exact Hok.
    - exists {| via := g; repo := name; data := d |}. split.
      + unfold issue_objects. apply in_map_iff. now exists d.
      + intros w1.
        apply (respond_other_healthy tr self name
                 {| via := g; repo := name; data := d |}).
        * exact Hh.
        * destruct Hh as (_ & Hb & _). now apply Hb.
        * exact Hrel. }
  destruct (for_each _ _ w0) as [[[] | e] w1]; cbn [fst snd] in *;
    [exact Hmark | discriminate].
Qed.

(** After a sweep with a credential and a healthy own repository, every
    issue of the own repository bears the marker. *)
Lemma sweep_marks_own tr self w d :
  truthy (github_token self) = true ->
  refused tr self = None ->
  healthy tr own_repository ->
  In d (issues_of tr own_repository) ->
  marked (comments_of (sweep tr self w) (own_repository, number d)) = true.
Proof.
  intros Htok Hcon Hh Hd. unfold sweep.
  rewrite process_issues_truthy by assumption. unfold try_except, bind.
  destruct (scan_own_healthy tr self {| token := github_token self |} w Hh)
    as [Hok Hmark].
  specialize (Hmark d Hd).
  destruct (scan_own _ _ _ w) as [[[] | e] ws]; cbn [fst snd] in *; [| discriminate].
  pose proof (monitors_at_most_one tr self {| token := cross_repo_token self |}
                repos_to_monitor (own_repository, number d) ws) as Hamo.
  pose proof (for_each_ok repos_to_monitor
                (monitor tr self {| token := cross_repo_token self |})
                (fun x w0 _ => monitor_ok tr self _ x w0) ws) as Hloop.
  destruct (for_each repos_to_monitor _ ws) as [[[] | e] wm]; cbn [fst snd] in *;
    [| discriminate].
  eapply at_most_one_marked; eassumption.
Qed.

(** So does every relevant issue of a healthy monitored repository,
    whatever happens in the other monitored repositories. *)
Lemma sweep_marks_other tr self w name d :
  truthy (github_token self) = true ->
  refused tr self = None ->
  fst (scan_own tr self {| token := github_token self |} w) = Ok tt ->
  In name repos_to_monitor -> healthy tr name ->
  In d (issues_of tr name) -> relevant d ->
  marked (comments_of (sweep tr self w) (name, number d)) = true.
Proof.
  intros Htok Hcon Hok Hname Hh Hd Hrel. unfold sweep.
  rewrite process_issues_truthy by assumption. unfold try_except, bind.
  destruct (scan_own _ _ _ w) as [[[] | e] ws]; cbn [fst snd] in *; [| discriminate].
  set (g := {| token := cross_repo_token self |}).
  pose proof (for_each_ok repos_to_monitor (monitor tr self g)
                (fun x w0 _ => monitor_ok tr self _ x w0) ws) as Hloop.
  assert (Hmark :
    marked (comments_of (snd (for_each repos_to_monitor (monitor tr self g) ws))
              (name, number d)) = true).
  { apply (for_each_reaches (at_most_one (name, number d))
             (fun w1 => marked (comments_of w1 (name, number d)) = true)).
    - intros w1 w2. apply at_most_one_marked.
    - intros x _. apply monitor_at_most_one.
    - intros x w0 _. apply monitor_ok.
    - exists name. split; [exact Hname |].
      intros w0. now apply monitor_healthy. }
  destruct (for_each repos_to_monitor _ ws) as [[[] | e] wm]; cbn [fst snd] in *;
    [exact Hmark | discriminate].
Qed.

Lemma at_most_one_exactly k w w' :
  at_most_one k w w' ->
  marked (comments_of w k) = false -> marked (comments_of w' k) = true ->
  exists r, contains marker r = true /\
            comments_of w' k = comments_of w k ++ [r].
Proof.
  intros [E | (_ & H)] U Hm; [| exact H]. rewrite E in Hm. congruence.
Qed.

Lemma sweeps_succ tr self n w :
  sweeps tr self (S n) w = sweep tr self (sweeps tr self n w).
Proof. reflexivity. Qed.

(** ** Replaying a sweep over an unchanged tracker *)

Lemma stationary_fails tr history o :
  stationary tr -> raises tr history o = fails tr o.
Proof. intros H. apply H. Qed.

Lemma comments_of_eq w w' k :
  comments w = comments w' -> comments_of w k = comments_of w' k.
Proof. unfold comments_of. now intros ->. Qed.

Lemma fetch_quiet tr g name w : comments (snd (fetch tr g name w)) = comments w.
Proof.
  unfold fetch, get_repo, get_issues, bind, invoke, ret, raise.
  destruct (raises tr (trace w) _); [reflexivity |].
  destruct (open_issues tr !! name); [| reflexivity].
  cbn [client full_name trace with_event].
  destruct (raises tr _ _); reflexivity.
Qed.

Lemma fetch_stationary tr g name w w2 :
  stationary tr -> fst (fetch tr g name w2) = fst (fetch tr g name w).
Proof.
  intros Hst.
  unfold fetch, get_repo, get_issues, bind, invoke, ret, raise.
  rewrite !(stationary_fails tr _ _ Hst).
  destruct (fails tr _); [reflexivity |].
  destruct (open_issues tr !! name); [| reflexivity].
  cbn [client full_name trace with_event].
  rewrite !(stationary_fails tr _ _ Hst).
  destruct (fails tr _); reflexivity.
Qed.

Lemma fetch_yields tr g name :
  yields (fetch tr g name) (fun issues => issues = issue_objects tr g name).
Proof.
  intros w issues w'.
  unfold fetch, get_repo, get_issues, bind, invoke, ret, raise.
  destruct (raises tr (trace w) _); [discriminate |].
  destruct (open_issues tr !! name) eqn:E; [| discriminate].
  cbn [client full_name trace with_event].
  destruct (raises tr _ _); [discriminate |].
  intros [= <- _]. reflexivity.
Qed.

Lemma reply_ok_marks tr self issue msg w :
  fst (reply tr self issue msg w) = Ok tt ->
  marked (comments_of (snd (reply tr self issue msg w)) (key_of issue)) = true.
Proof.
  rewrite reply_eval. cbv zeta.
  destruct (raises tr (trace w) _); [discriminate |].
  destruct (marked (comments_of w (key_of issue))) eqn:Hm; [intros _; exact Hm |].
  destruct (analyze_request self _ _) as [text | e] eqn:Ha; [| discriminate].
  destruct (raises tr _ _); [discriminate |]. intros _. cbn [snd].
  rewrite comments_of_event, comments_of_insert.
  destruct (decide (key_of issue = key_of issue)); [| contradiction].
  rewrite marked_snoc, (analyze_request_marker _ _ _ _ Ha). apply orb_true_r.
Qed.

(** [reply_eval] when the oracle ignores the history. *)
Lemma reply_eval_stationary tr self issue msg w :
  stationary tr ->
  reply tr self issue msg w =
  let k := key_of issue in
  let get := op_get_comments (via issue) (repo issue) (number (data issue)) in
  let w1 := with_event w (Call get) in
  match fails tr get with
  | Some e => (Raise e, w1)
  | None =>
    if marked (comments_of w k) then (Ok tt, w1)
    else
      match analyze_request self (title (data issue)) (body (data issue)) with
      | Raise e => (Raise e, w1)
      | Ok text =>
        let post :=
          op_create_comment (via issue) (repo issue) (number (data issue)) text in
        let w2 := with_event w1 (Call post) in
        match fails tr post with
        | Some e => (Raise e, w2)
        | None =>
          (Ok tt,
           with_event
             {| comments := <[k := comments_of w k ++ [text]]> (comments w);
                trace := trace w2 |}
             (LogInfo msg))
        end
      end
  end.
Proof.
  intros Hst. rewrite reply_eval. cbv zeta.
  rewrite (stationary_fails tr (trace w) _ Hst).
  destruct (fails tr _); [reflexivity |].
  destruct (marked _); [reflexivity |].
  destruct (analyze_request self _ _) as [text | e]; [| reflexivity].
  now rewrite (stationary_fails tr _ _ Hst).
Qed.

Lemma reply_replay_raise tr self issue msg w w2 e :
  stationary tr ->
  fst (reply tr self issue msg w) = Raise e ->
  comments_of w2 (key_of issue) = comments_of w (key_of issue) ->
  fst (reply tr self issue msg w2) = Raise e /\
  comments (snd (reply tr self issue msg w2)) = comments w2.
Proof.
  intros Hst. rewrite !reply_eval_stationary by exact Hst. cbv zeta.
  intros H E. rewrite E.
  destruct (fails tr _); [now split |].
  destruct (marked (comments_of w (key_of issue))); [discriminate |].
  destruct (analyze_request self _ _) as [text | e']; [| now split].
  destruct (fails tr _); [now split | discriminate].
Qed.

Lemma reply_replay_ok tr self issue msg w w2 :
  stationary tr ->
  fst (reply tr self issue msg w) = Ok tt ->
  marked (comments_of w2 (key_of issue)) = true ->
  fst (reply tr self issue msg w2) = Ok tt /\
  comments (snd (reply tr self issue msg w2)) = comments w2.
Proof.
  intros Hst. rewrite !reply_eval_stationary by exact Hst. cbv zeta.
  intros H ->.
  destruct (fails tr _); [discriminate | now split].
Qed.

Lemma respond_own_replayable tr self :
  stationary tr -> replayable (respond_own tr self).
Proof.
  intros Hst x. rewrite respond_own_reply. split; [| split; [| split]].
  - intros w e. apply reply_raise_quiet.
  - intros w w2 e H E. exact (reply_replay_raise _ _ _ _ w w2 e Hst H E).
  - intros w w2 H Hm. apply (reply_replay_ok _ _ _ _ w w2 Hst H).
    apply Hm. now apply reply_ok_marks.
  - intros k. apply reply_at_most_one.
Qed.

Lemma respond_other_replayable tr self name :
  stationary tr -> replayable (respond_other tr self name).
Proof.
  intros Hst x. split; [| split; [| split]].
  4: intros k; apply respond_other_at_most_one.
  all: rewrite respond_other_reply; unfold bind, lift, ret;
    destruct (mentions_ecommerce x) as [[|] | e0]; cbn [fst snd].
  - apply reply_raise_quiet.
  - discriminate.
  - reflexivity.
  - intros w w2 e H E. exact (reply_replay_raise _ _ _ _ w w2 e Hst H E).
  - discriminate.
  - intros w w2 e H _. now split.
  - intros w w2 H Hm. apply (reply_replay_ok _ _ _ _ w w2 Hst H).
    apply Hm. now apply reply_ok_marks.
  - now split.
  - discriminate.
Qed.

Lemma for_each_replay (body : Issue -> M unit) name xs :
  replayable body ->
  (forall x, In x xs -> repo x = name) ->
  forall w w2,
    (forall n, comments_of w2 (name, n) =
               comments_of (snd (for_each xs body w)) (name, n)) ->
    fst (for_each xs body w2) = fst (for_each xs body w) /\
    comments (snd (for_each xs body w2)) = comments w2.
Proof.
  intros Hbody. induction xs as [| x xs IH]; intros Hrepo w w2 H.
  - now split.
  - assert (Hk : key_of x = (name, number (data x))).
    { unfold key_of. now rewrite (Hrepo x (or_introl eq_refl)). }
    destruct (Hbody x) as (Hq & Hraise & Hok & Hamo).
    simpl in *. unfold bind in *.
    destruct (body x w) as [[[] | e] wa] eqn:Ea.
    + assert (Hmono : marked (comments_of wa (key_of x)) = true ->
                      marked (comments_of w2 (key_of x)) = true).
      { intros Hm. rewrite Hk, H, <- Hk.
        eapply at_most_one_marked; [| exact Hm].
        apply (steps_for_each (R := at_most_one (key_of x))).
        intros y _. destruct (Hbody y) as (_ & _ & _ & Hy). apply Hy. }
      specialize (Hok w w2). rewrite Ea in Hok. cbn [fst snd] in Hok.
      destruct (Hok eq_refl Hmono) as [Hok2 Hq2].
      destruct (body x w2) as [[[] | e] w2a] eqn:E2; cbn [fst snd] in *;
        [| discriminate].
      destruct (IH (fun y Hy => Hrepo y (or_intror Hy)) wa w2a) as [IH1 IH2].
      * intros n. rewrite <- H. now apply comments_of_eq.
      * split; [exact IH1 | congruence].
    + specialize (Hq w e). specialize (Hraise w w2 e).
      rewrite Ea in Hq, Hraise. cbn [fst snd] in *.
      destruct Hraise as [Hr2 Hq2]; [reflexivity | |].
      * rewrite Hk, H, <- Hk. apply comments_of_eq. now rewrite Hq.
      * destruct (body x w2) as [[[] | e2] w2a]; cbn [fst snd] in *;
          [discriminate |].
        now split.
Qed.

Lemma visit_replay tr g name (body : Issue -> M unit) w w2 :
  stationary tr -> replayable body ->
  (forall n, comments_of w2 (name, n) =
             comments_of (snd (visit tr g name body w)) (name, n)) ->
  fst (visit tr g name body w2) = fst (visit tr g name body w) /\
  comments (snd (visit tr g name body w2)) = comments w2.
Proof.
  intros Hst Hbody. unfold visit, bind.
  pose proof (fetch_stationary tr g name w w2 Hst) as Hf.
  pose proof (fetch_quiet tr g name w) as Hq.
  pose proof (fetch_quiet tr g name w2) as Hq2.
  pose proof (fetch_yields tr g name w) as Hy.
  destruct (fetch tr g name w) as [[issues | e] w0];
    destruct (fetch tr g name w2) as [[issues2 | e2] w20];
    cbn [fst snd] in *; try discriminate.
  - injection Hf as ->. intros H.
    destruct (for_each_replay body name issues Hbody) with (w := w0) (w2 := w20)
      as [H1 H2].
    + intros x Hx. rewrite (Hy issues w0 eq_refl) in Hx.
      now apply issue_objects_spec in Hx.
    + intros n. rewrite <- H. now apply comments_of_eq.
    + split; [exact H1 | congruence].
  - intros _. split; [congruence | assumption].
Qed.

Lemma monitor_same_at tr self g name k :
  name <> fst k -> steps (same_at k) (monitor tr self g name).
Proof.
  intros Hne. apply steps_monitor. intros issue Hrepo _.
  apply respond_other_same_at. left. unfold key_of. intros <-.
  now apply Hne.
Qed.

Lemma monitor_replay tr self g name w w2 :
  stationary tr ->
  (forall n, comments_of w2 (name, n) =
             comments_of (snd (monitor tr self g name w)) (name, n)) ->
  comments (snd (monitor tr self g name w2)) = comments w2.
Proof.
  intros Hst. rewrite !monitor_visit. unfold try_except. intros H.
  destruct (visit_replay tr g name (respond_other tr self name) w w2 Hst)
    as [H1 H2].
  - now apply respond_other_replayable.
  - intros n. rewrite H.
    destruct (visit tr g name _ w) as [[[] | e] w1]; reflexivity.
  - destruct (visit tr g name _ w2) as [[[] | e] w1]; exact H2.
Qed.

Lemma monitors_replay tr self g names :
  stationary tr -> List.NoDup names ->
  forall w w2,
    (forall name n, In name names ->
       comments_of w2 (name, n) =
       comments_of (snd (for_each names (monitor tr self g) w)) (name, n)) ->
    comments (snd (for_each names (monitor tr self g) w2)) = comments w2.
Proof.
  intros Hst. induction names as [| name names IH]; intros Hnd w w2 H.
  - reflexivity.
  - inversion Hnd as [| ? ? Hnotin Hnd']; subst.
    simpl in *. unfold bind in *.
    pose proof (monitor_ok tr self g name w) as Hok.
    pose proof (monitor_ok tr self g name w2) as Hok2.
    pose proof (monitor_replay tr self g name w w2 Hst) as Hrep.
    destruct (monitor tr self g name w) as [[[] | e] wa]; cbn [fst snd] in *;
      [| discriminate].
    destruct (monitor tr self g name w2) as [[[] | e] w2a]; cbn [fst snd] in *;
      [| discriminate].
    assert (Hq : comments w2a = comments w2).
    { apply Hrep. intros n. rewrite (H name n (or_introl eq_refl)).
      apply (steps_for_each (R := same_at (name, n))).
      intros other Hother. apply monitor_same_at. cbn [fst].
      intros ->. contradiction. }
    rewrite <- Hq. apply (IH Hnd' wa w2a).
    intros other n Hother. rewrite <- (H other n (or_intror Hother)).
    now apply comments_of_eq.
Qed.

(** The world a sweep with a credential leaves, from the outcome of the
    scan of the own repository. *)
Lemma sweep_truthy tr self w :
  truthy (github_token self) = true ->
  refused tr self = None ->
  sweep tr self w =
  match scan_own tr self {| token := github_token self |} w with
  | (Ok _, ws) =>
    snd (for_each repos_to_monitor
           (monitor tr self {| token := cross_repo_token self |}) ws)
  | (Raise e, ws) =>
    with_event (with_event ws (LogError ("Agent error: " +:+ str_of_exn e)))
      (LogError (format_exc e))
  end.
Proof.
  intros Htok Hcon. unfold sweep. rewrite process_issues_truthy by assumption.
  unfold try_except, bind.
  destruct (scan_own tr self _ w) as [[[] | e] ws]; [| reflexivity].
  pose proof (for_each_ok repos_to_monitor
                (monitor tr self {| token := cross_repo_token self |})
                (fun x w0 _ => monitor_ok tr self _ x w0) ws) as Hloop.
  destruct (for_each repos_to_monitor _ ws) as [[[] | e] wm];
    cbn [fst snd] in *; [reflexivity | discriminate].
Qed.

(** A second sweep over a tracker whose failures are stationary posts
    nothing. *)
Lemma sweep_replay tr self w :
  stationary tr ->
  comments (sweep tr self (sweep tr self w)) = comments (sweep tr self w).
Proof.
  intros Hst.
  destruct (truthy (github_token self)) eqn:Htok.
  2: { unfold sweep. now rewrite !process_issues_falsy by exact Htok. }
  destruct (refused tr self) as [e0 |] eqn:Hcon.
  { unfold sweep. rewrite (process_issues_refused _ _ w e0 Htok Hcon).
    cbn [snd]. now rewrite (process_issues_refused _ _ _ e0 Htok Hcon). }
  rewrite (sweep_truthy _ _ w Htok Hcon).
  set (g := {| token := github_token self |}).
  set (cross_g := {| token := cross_repo_token self |}).
  pose proof (visit_replay tr g own_repository (respond_own tr self) w) as Hscan.
  destruct (scan_own tr self g w) as [[[] | e] ws] eqn:Es.
  - pose proof (monitors_replay tr self cross_g repos_to_monitor Hst
                  repos_to_monitor_NoDup ws) as Hmon.
    assert (Hframe : forall n,
      comments_of (snd (for_each repos_to_monitor (monitor tr self cross_g) ws))
        (own_repository, n) = comments_of ws (own_repository, n)).
    { intros n. apply (steps_for_each (R := same_at (own_repository, n))).
      intros other Hother. apply monitor_same_at. cbn [fst]. intros ->.
      now apply own_repository_not_monitored. }
    set (wm := snd (for_each repos_to_monitor (monitor tr self cross_g) ws)) in *.
    rewrite (sweep_truthy _ _ wm Htok Hcon). fold g cross_g.
    destruct (Hscan wm Hst (respond_own_replayable tr self Hst)) as [H1 H2].
    { intros n. rewrite <- scan_own_visit, Es. cbn [snd]. apply Hframe. }
    rewrite <- !scan_own_visit, Es in H1. rewrite <- scan_own_visit in H2.
    destruct (scan_own tr self g wm) as [[[] | e] w2a]; cbn [fst snd] in *;
      [| discriminate].
    rewrite <- H2. apply Hmon. intros name n _. now apply comments_of_eq.
  - set (w1 := with_event (with_event ws _) _).
    rewrite (sweep_truthy _ _ w1 Htok Hcon). fold g cross_g.
    destruct (Hscan w1 Hst (respond_own_replayable tr self Hst)) as [H1 H2].
    { intros n. rewrite <- scan_own_visit, Es. reflexivity. }
    rewrite <- !scan_own_visit, Es in H1. rewrite <- scan_own_visit in H2.
    destruct (scan_own tr self g w1) as [[[] | e2] w2a]; cbn [fst snd] in *;
      [discriminate |].
    exact H2.
Qed.

Lemma sweeps_settle tr self n w :
  stationary tr ->
  comments (sweeps tr self (S n) w) = comments (sweep tr self w).
Proof.
  intros Hst. induction n as [| n IH]; [reflexivity |].
  rewrite sweeps_succ, <- IH, sweeps_succ. now apply sweep_replay.
Qed.

(** ** Issues the relevance filter rejects *)

Lemma sweep_irrelevant_same tr self name n w :
  In name repos_to_monitor ->
  (forall d, In d (issues_of tr name) -> number d = n -> irrelevant d) ->
  same_at (name, n) w (sweep tr self w).
Proof.
  intros Hname Hirr.
  apply (steps_process_issues (R := same_at (name, n))).
  - intros issue Hrepo _. rewrite respond_own_reply. apply reply_same_at.
    unfold key_of. rewrite Hrepo. intros [= E _]. rewrite <- E in Hname.
    now apply own_repository_not_monitored.
  - intros other issue _ Hrepo Hin. apply respond_other_same_at.
    destruct (decide (key_of issue = (name, n))) as [E | Hne]; [right | now left].
    unfold key_of in E. injection E as E1 E2. subst other.
    rewrite E1 in Hin. now apply Hirr.
Qed.

Lemma sweeps_irrelevant_same tr self name n m w :
  In name repos_to_monitor ->
  (forall d, In d (issues_of tr name) -> number d = n -> irrelevant d) ->
  same_at (name, n) w (sweeps tr self m w).
Proof.
  intros Hname Hirr. induction m as [| m IH]; simpl.
  - apply run_refl.
  - eapply run_trans; [exact IH | now apply sweep_irrelevant_same].
Qed.

(** ** What the trace records *)

#[local] Instance trace_grows_run : RunRel trace_grows.
Proof.
  split; unfold trace_grows.
  - intros w. exists []. now rewrite app_nil_r.
  - intros w1 w2 w3 [e1 H1] [e2 H2]. exists (e1 ++ e2).
    now rewrite H2, H1, app_assoc.
  - intros w ev. now exists [ev].
Qed.

Lemma trace_grows_In ev w w' :
  trace_grows w w' -> In ev (trace w) -> In ev (trace w').
Proof. intros [events ->] H. apply in_or_app. now left. Qed.

Lemma reply_trace_grows tr self issue msg :
  steps trace_grows (reply tr self issue msg).
Proof.
  intros w. rewrite reply_eval. cbv zeta. unfold trace_grows.
  destruct (raises tr (trace w) _); [now eexists [_] |].
  destruct (marked _); [now eexists [_] |].
  destruct (analyze_request self _ _) as [text | e]; [| now eexists [_]].
  destruct (raises tr _ _); cbn [snd with_event trace].
  - eexists [_; _]. now rewrite <- app_assoc.
  - eexists [_; _; _]. now rewrite <- !app_assoc.
Qed.

Lemma respond_other_trace_grows tr self name issue :
  steps trace_grows (respond_other tr self name issue).
Proof.
  rewrite respond_other_reply. apply steps_bind; [apply steps_lift |].
  intros [|]; [apply reply_trace_grows | apply steps_ret].
Qed.

Lemma bind_establishes {A B} (R : World -> World -> Prop) `{!RunRel R}
    (P : World -> Prop) (m : M A) (k : A -> M B) :
  (forall w w', R w w' -> P w -> P w') ->
  (forall w, P (snd (m w))) -> (forall a, steps R (k a)) ->
  forall w, P (snd (bind m k w)).
Proof.
  intros Hkeep Hm Hk w. unfold bind. specialize (Hm w).
  destruct (m w) as [[a | e] w1]; cbn [snd] in *; [| exact Hm].
  eapply Hkeep; [apply Hk | exact Hm].
Qed.

Lemma try_establishes {A} (R : World -> World -> Prop) `{!RunRel R}
    (P : World -> Prop) (m : M A) (h : Exn -> M A) :
  (forall w w', R w w' -> P w -> P w') ->
  (forall w, P (snd (m w))) -> (forall e, steps R (h e)) ->
  forall w, P (snd (try_except m h w)).
Proof.
  intros Hkeep Hm Hh w. unfold try_except. specialize (Hm w).
  destruct (m w) as [[a | e] w1]; cbn [snd] in *; [exact Hm |].
  eapply Hkeep; [apply Hh | exact Hm].
Qed.

(** [monitor] always starts by looking the repository up. *)
Lemma monitor_calls tr self g name w :
  In (Call (op_get_repo g name)) (trace (snd (monitor tr self g name w))).
Proof.
  revert w. unfold monitor.
  apply (try_establishes trace_grows
           (fun w => In (Call (op_get_repo g name)) (trace w)));
    [intros w w'; apply trace_grows_In | | intros e; apply steps_emit].
  apply (bind_establishes trace_grows
           (fun w => In (Call (op_get_repo g name)) (trace w)));
    [intros w w'; apply trace_grows_In | |].
  - unfold get_repo.
    apply (bind_establishes trace_grows
             (fun w => In (Call (op_get_repo g name)) (trace w)));
      [intros w w'; apply trace_grows_In | |].
    + intros w. unfold invoke.
      destruct (raises tr (trace w) _); cbn [snd with_event trace];
        apply in_or_app; right; now left.
    + intros _. destruct (open_issues tr !! name);
        [apply steps_ret | apply steps_raise].
  - intros r. apply steps_bind; [apply steps_get_issues |].
    intros issues. apply steps_for_each. intros x _.
    apply respond_other_trace_grows.
Qed.

Lemma monitor_trace_grows tr self g name :
  steps trace_grows (monitor tr self g name).
Proof.
  apply steps_monitor. intros issue _ _. apply respond_other_trace_grows.
Qed.

(** Once the scan of the own repository has returned, every monitored
    repository is looked up, whatever happens in the others. *)
Lemma sweep_visits_all tr self w name :
  truthy (github_token self) = true ->
  refused tr self = None ->
  fst (scan_own tr self {| token := github_token self |} w) = Ok tt ->
  In name repos_to_monitor ->
  In (Call (op_get_repo {| token := cross_repo_token self |} name))
     (trace (sweep tr self w)).
Proof.
  intros Htok Hcon Hscan Hname. rewrite sweep_truthy by assumption.
  destruct (scan_own tr self _ w) as [[[] | e] ws]; cbn [fst] in Hscan;
    [| discriminate].
  apply (for_each_reaches trace_grows
           (fun w1 => In (Call (op_get_repo _ name)) (trace w1))).
  - intros w1 w2. apply trace_grows_In.
  - intros x _. apply monitor_trace_grows.
  - intros x w0 _. apply monitor_ok.
  - exists name. split; [exact Hname |]. intros w0. apply monitor_calls.
Qed.

(** ** A failure on one issue *)

Lemma visit_aborts tr g name (body : Issue -> M unit) w pre x rest w0 w1 w2 e :
  fetch tr g name w = (Ok (pre ++ x :: rest), w0) ->
  for_each pre body w0 = (Ok tt, w1) ->
  body x w1 = (Raise e, w2) ->
  visit tr g name body w = (Raise e, w2).
Proof.
  intros Hf Hpre Hx. unfold visit, bind. rewrite Hf.
  eapply for_each_aborts; eassumption.
Qed.

Lemma respond_other_raise_quiet tr self name issue w e :
  fst (respond_other tr self name issue w) = Raise e ->
  comments (snd (respond_other tr self name issue w)) = comments w.
Proof.
  rewrite respond_other_reply. unfold bind, lift, ret.
  destruct (mentions_ecommerce issue) as [[|] | e0]; cbn [fst snd];
    [apply reply_raise_quiet | reflexivity | reflexivity].
Qed.

(** * The claims about the classifier *)

Lemma first_match_none table text :
  (forall row, In row table -> any_in (snd row) text = false) ->
  first_match table text = general.
Proof.
  induction table as [| [c keywords] table IH]; intros H; simpl.
  - reflexivity.
  - pose proof (H (c, keywords) (or_introl eq_refl)) as Hrow.
    cbn [snd] in Hrow. rewrite Hrow.
    apply IH. intros row Hin. apply H. now right.
Qed.

Lemma product_keyword_in_text (t b word : string) :
  In word ["product"; "sync"; "variant"; "color"] ->
  contains word t = true \/ contains word b = true ->
  any_in ["product"; "sync"; "variant"; "color"] (request_text t b) = true.
Proof.
  intros Hword Hraw. apply any_in_true. exists word. split; [exact Hword |].
  assert (Hl : lower word = word /\ is_ascii word = true).
  { simpl in Hword.
    destruct Hword as [<- | [<- | [<- | [<- | []]]]]; now split. }
  destruct Hl as [Hl Ha]. unfold request_text. destruct Hraw as [H | H].
  - apply contains_append_l.
    pose proof (contains_str_lower word t Ha H) as Hc. now rewrite Hl in Hc.
  - apply contains_append_r, contains_append_r.
    pose proof (contains_str_lower word b Ha H) as Hc. now rewrite Hl in Hc.
Qed.

(** C2.  [analyze_request] is the first-match evaluation of the priority
    table product_sync, order_sync, job_queue, configuration over the
    lower-cased title, a space, and the lower-cased body: it returns the
    text of the first category with a keyword in that text, and the texts
    of different categories differ.  A text with a product_sync keyword,
    also one written in the raw title or body, gets the product text; a text
    with both "order" and "job" and no product_sync keyword gets the order
    text, not the job-queue text. *)
Theorem classifier_priority_order self (t b : string) :
  (classify t (Some b) = Ok (first_match priority_table (request_text t b)) /\
   analyze_request self t (Some b) =
   Ok (respond self (first_match priority_table (request_text t b)) t (Some b)) /\
   forall c c', respond self c t (Some b) = respond self c' t (Some b) -> c = c') /\
  (any_in ["product"; "sync"; "variant"; "color"] (request_text t b) = true ->
   classify t (Some b) = Ok product_sync /\
   analyze_request self t (Some b) =
   Ok (handle_product_sync_request self t (Some b))) /\
  (forall word,
     In word ["product"; "sync"; "variant"; "color"] ->
     contains word t = true \/ contains word b = true ->
     classify t (Some b) = Ok product_sync /\
     analyze_request self t (Some b) =
     Ok (handle_product_sync_request self t (Some b))) /\
  (contains "order" (request_text t b) = true ->
   contains "job" (request_text t b) = true ->
   any_in ["product"; "sync"; "variant"; "color"] (request_text t b) = false ->
   classify t (Some b) = Ok order_sync /\
   analyze_request self t (Some b) = Ok (handle_order_sync_request t (Some b)) /\
   analyze_request self t (Some b) <> Ok (handle_job_queue_request t (Some b)) /\
   analyze_request self t (Some b) <>
   Ok (handle_product_sync_request self t (Some b))).
Proof.
  assert (Hprod :
    any_in ["product"; "sync"; "variant"; "color"] (request_text t b) = true ->
    classify t (Some b) = Ok product_sync /\
    analyze_request self t (Some b) =
    Ok (handle_product_sync_request self t (Some b))).
  { intros H. rewrite analyze_request_text, classify_text. unfold category_of.
    now rewrite H. }
  split; [| split; [| split]].
  - split; [| split].
    + rewrite classify_text. reflexivity.
    + rewrite analyze_request_text. reflexivity.
    + intros c c'. apply respond_inj.
  - exact Hprod.
  - intros word Hword Hraw. apply Hprod.
    now apply (product_keyword_in_text t b word).
  - intros Horder _ Hnone.
    assert (Hc : category_of (request_text t b) = order_sync).
    { unfold category_of. rewrite Hnone. unfold any_in at 1.
      cbn [existsb]. now rewrite Horder. }
    rewrite analyze_request_text, classify_text, Hc.
    split; [reflexivity |]. split; [reflexivity |].
    assert (Hinj : forall x y : string, Ok x = Ok y -> x = y)
      by (intros x y H; now injection H).
    split; intros E; apply Hinj in E.
    + now apply (respond_inj self order_sync job_queue t t (Some b) (Some b)) in E.
    + now apply (respond_inj self order_sync product_sync t t (Some b) (Some b)) in E.
Qed.

(** C6.  The title "How to setup webhook" with an empty body is classified
    order_sync and answered with the order text, not the configuration
    text: "order" does not occur, "webhook" is an order_sync keyword, and
    the configuration keywords, which would match too, are tested later. *)
Theorem setup_webhook_is_order_sync :
  classify "How to setup webhook" (Some "") = Ok order_sync /\
  (forall self,
     analyze_request self "How to setup webhook" (Some "") = Ok order_sync_text) /\
  order_sync_text <> configuration_text /\
  contains "order" (request_text "How to setup webhook" "") = false /\
  In "webhook" ["order"; "webhook"; "real-time"] /\
  contains "webhook" (request_text "How to setup webhook" "") = true /\
  any_in ["config"; "setup"; "webhook"; "api"]
    (request_text "How to setup webhook" "") = true /\
  first_match priority_table (request_text "How to setup webhook" "") = order_sync.
Proof.
  assert (E : request_text "How to setup webhook" "" = "how to setup webhook ").
  { rewrite request_text_ascii by reflexivity. reflexivity. }
  assert (Hc : category_of "how to setup webhook " = order_sync)
    by (vm_compute; reflexivity).
  rewrite classify_text, E, Hc.
  split; [reflexivity |].
  split; [intros self; now rewrite analyze_request_text, E, Hc |].
  split.
  { intros H. apply (f_equal (substring 0 52)) in H. vm_compute in H.
    discriminate H. }
  split; [vm_compute; reflexivity |].
  split; [right; now left |].
  repeat split; vm_compute; reflexivity.
Qed.

(** C7.  On text inputs the classifier never raises: it returns exactly one
    of the five categories, the response is the text of that category and
    of no other, and the category is general when no keyword of the table
    occurs. *)
Theorem classifier_total self (t b : string) :
  exists c,
    classify t (Some b) = Ok c /\
    analyze_request self t (Some b) = Ok (respond self c t (Some b)) /\
    (forall c',
        analyze_request self t (Some b) = Ok (respond self c' t (Some b)) ->
        c' = c) /\
    ((forall row, In row priority_table ->
                  any_in (snd row) (request_text t b) = false) ->
     c = general).
Proof.
  exists (category_of (request_text t b)). split; [| split; [| split]].
  - apply classify_text.
  - apply analyze_request_text.
  - intros c'. rewrite analyze_request_text. intros [= H].
    symmetry. eapply respond_inj. exact H.
  - intros H. rewrite category_of_first_match. now apply first_match_none.
Qed.

(** C10.  The four category handlers ignore the title and the body: the
    text answered for a non-general category depends on the category only,
    also across agents built from different environments.  The general
    response is the fixed text around the title, and differs when the title
    does. *)
Theorem canned_responses_ignore_issue self :
  (forall c t b t' b', c <> general -> respond self c t b = respond self c t' b') /\
  (forall c t b t' b',
     classify t b = Ok c -> classify t' b' = Ok c -> c <> general ->
     analyze_request self t b = analyze_request self t' b') /\
  (forall environ environ' c t b t' b',
     c <> general ->
     respond (init environ) c t b = respond (init environ') c t' b') /\
  (forall t b, respond self general t b = general_head +:+ t +:+ general_tail) /\
  (forall t t', general_response t = general_response t' -> t = t').
Proof.
  assert (H : forall c t b t' b',
             c <> general -> respond self c t b = respond self c t' b').
  { intros [] t b t' b' Hc; try reflexivity. now contradiction Hc. }
  split; [| split; [| split; [| split]]].
  - exact H.
  - intros c t b t' b' Hc Hc' Hg. rewrite !analyze_request_classify, Hc, Hc'.
    f_equal. now apply H.
  - intros environ environ' [] t b t' b' Hc; try reflexivity.
    now contradiction Hc.
  - reflexivity.
  - intros t t'. unfold general_response. intros E.
    apply String.app_inj in E. now apply append_cancel_r in E.
Qed.


(** * The claims about the dispatcher *)

(** ** Idempotence *)

(** C1, amended.  An issue that bears the marker receives no comment,
    whatever fails and however often the dispatcher runs; any issue
    receives at most one comment over arbitrarily many sweeps, and that
    comment bears the marker.  An issue without the marker receives exactly
    one comment if the dispatcher reaches it without failure: it is an open
    issue of the own repository, or a relevant open issue of a monitored
    repository; the credential is set and both clients can be built; and
    its repository and the own repository are healthy. *)
Theorem at_most_once_per_issue tr self w k n :
  (marked (comments_of w k) = true ->
   comments_of (sweeps tr self n w) k = comments_of w k) /\
  (exists extra,
     comments_of (sweeps tr self n w) k = comments_of w k ++ extra /\
     length extra <= 1 /\
     forall r, In r extra -> contains marker r = true) /\
  (marked (comments_of w k) = false ->
   truthy (github_token self) = true ->
   refuses tr (github_token self) = None ->
   refuses tr (cross_repo_token self) = None ->
   healthy tr own_repository ->
   (exists d, In d (issues_of tr own_repository) /\
              k = (own_repository, number d)) \/
   (exists name d,
      In name repos_to_monitor /\ healthy tr name /\
      In d (issues_of tr name) /\ relevant d /\ k = (name, number d)) ->
   exists r,
     contains marker r = true /\
     comments_of (sweeps tr self (S n) w) k = comments_of w k ++ [r]).
Proof.
  split; [| split].
  - intros Hm. destruct (sweeps_at_most_one tr self k n w) as [E | (U & _)];
      [exact E | congruence].
  - destruct (sweeps_at_most_one tr self k n w) as [E | (_ & r & Hr & E)].
    + exists []. rewrite app_nil_r. split; [exact E |]. split; [simpl; lia |].
      intros r [].
    + exists [r]. split; [exact E |]. split; [simpl; lia |].
      intros r' [<- | []]. exact Hr.
  - intros U Htok Hg Hc Hown Hk.
    assert (Hcon : refused tr self = None) by (apply refused_none; now split).
    apply at_most_one_exactly; [apply sweeps_at_most_one | exact U |].
    rewrite sweeps_succ.
    destruct Hk as [(d & Hd & ->) | (name & d & Hname & Hh & Hd & Hrel & ->)].
    + now apply sweep_marks_own.
    + apply sweep_marks_other; try assumption.
      now apply scan_own_healthy.
Qed.

(** C3, amended.  Over a tracker with the same issues and on which every
    collaborator operation fails or succeeds in the second run as in the
    first, the second of two sweeps in succession leaves every comment list
    as the first left it.  Each of the five texts the agent posts bears the
    marker. *)
Theorem second_sweep_posts_nothing tr self w :
  stationary tr ->
  comments (sweep tr self (sweep tr self w)) = comments (sweep tr self w) /\
  (forall k, comments_of (sweeps tr self 2 w) k = comments_of (sweeps tr self 1 w) k) /\
  (forall c t b, contains marker (respond self c t b) = true) /\
  (forall t b r, analyze_request self t b = Ok r -> contains marker r = true).
Proof.
  intros Hst. split; [| split; [| split]].
  - now apply sweep_replay.
  - intros k. apply comments_of_eq. cbn [sweeps Nat.iter].
    now apply sweep_replay.
  - intros c t b. apply respond_marker.
  - intros t b r. apply analyze_request_marker.
Qed.

(** ** The relevance filter *)

(** C5.  An issue of a monitored repository whose text has none of the
    seven relevance keywords receives no comment, in any number of sweeps,
    whatever the classifier makes of it and whatever fails. *)
Theorem irrelevant_issue_never_answered tr self name n m w :
  In name repos_to_monitor ->
  (forall d, In d (issues_of tr name) -> number d = n -> irrelevant d) ->
  comments_of (sweeps tr self m w) (name, n) = comments_of w (name, n).
Proof. intros Hname Hirr. now apply sweeps_irrelevant_same. Qed.

(** ** Failures *)

(** C9.  Without GITHUB_TOKEN the run logs the error and stops: no
    collaborator operation is invoked and no comment list changes. *)
Theorem missing_token_is_noop (environ : Environ) tr w :
  environ !! "GITHUB_TOKEN" = None ->
  process_issues tr (init environ) w =
    (Ok tt, with_event w (LogError "GITHUB_TOKEN not set")) /\
  main environ tr w =
    (Ok tt,
     with_event
       (with_event w
          (LogInfo "WooCommerce Sync Coordinator starting - Managing e-commerce integration"))
       (LogError "GITHUB_TOKEN not set")) /\
  comments (sweep tr (init environ) w) = comments w /\
  (forall o, In (Call o) (trace (sweep tr (init environ) w)) -> In (Call o) (trace w)).
Proof.
  intros H.
  assert (Hfalsy : truthy (github_token (init environ)) = false).
  { unfold init. cbn [github_token]. now rewrite H. }
  split; [| split; [| split]].
  - now apply process_issues_falsy.
  - unfold main, bind, logger_info, emit.
    now rewrite process_issues_falsy by exact Hfalsy.
  - unfold sweep. now rewrite process_issues_falsy by exact Hfalsy.
  - intros o. unfold sweep. rewrite process_issues_falsy by exact Hfalsy.
    cbn [snd with_event trace]. intros Hin.
    apply in_app_or in Hin as [Hin | [Hin | []]]; [exact Hin | discriminate Hin].
Qed.



(** C4, amended.  The sweep always returns normally, and so does the
    handling of each monitored repository: an exception raised while a
    monitored repository is looked up, listed or worked through is logged
    under the repository's name and the repository is left.  When the
    credential is set, both clients can be built and the scan of the own
    repository has returned, every monitored repository is looked up, and
    every relevant issue of a healthy monitored repository bears the marker
    afterwards, having received exactly one comment if it bore none,
    whatever fails in the other monitored repositories. *)
Theorem monitored_failures_are_isolated tr self w :
  fst (process_issues tr self w) = Ok tt /\
  (forall g name w0, fst (monitor tr self g name w0) = Ok tt) /\
  (forall g name w0 e w1,
     visit tr g name (respond_other tr self name) w0 = (Raise e, w1) ->
     monitor tr self g name w0 =
     (Ok tt,
      with_event w1
        (LogError ("Error monitoring " +:+ name +:+ ": " +:+ str_of_exn e)))) /\
  (truthy (github_token self) = true ->
   refuses tr (github_token self) = None ->
   refuses tr (cross_repo_token self) = None ->
   fst (scan_own tr self {| token := github_token self |} w) = Ok tt ->
   forall name,
     In name repos_to_monitor ->
     In (Call (op_get_repo {| token := cross_repo_token self |} name))
        (trace (sweep tr self w)) /\
     forall d,
       healthy tr name -> In d (issues_of tr name) -> relevant d ->
       marked (comments_of (sweep tr self w) (name, number d)) = true /\
       (marked (comments_of w (name, number d)) = false ->
        exists r,
          contains marker r = true /\
          comments_of (sweep tr self w) (name, number d) =
          comments_of w (name, number d) ++ [r])).
Proof.
  split; [apply process_issues_ok |].
  split; [intros g name w0; apply monitor_ok |].
  split.
  - intros g name w0 e w1 H. rewrite monitor_visit. unfold try_except.
    now rewrite H.
  - intros Htok Hg Hc Hscan name Hname.
    assert (Hcon : refused tr self = None) by (apply refused_none; now split).
    split; [now apply sweep_visits_all |].
    intros d Hh Hd Hrel.
    pose proof (sweep_marks_other tr self w name d Htok Hcon Hscan Hname Hh Hd Hrel)
      as Hm.
    split; [exact Hm |]. intros U.
    apply at_most_one_exactly; [apply sweep_at_most_one | exact U | exact Hm].
Qed.

(** The same failure in the agent's own repository reaches the outer
    handler: it is logged as an agent error and the sweep ends there. *)
Lemma own_issue_failure_ends_sweep tr self w pre x rest w0 w1 w2 e :
  truthy (github_token self) = true ->
  refused tr self = None ->
  fetch tr {| token := github_token self |} own_repository w =
    (Ok (pre ++ x :: rest), w0) ->
  for_each pre (respond_own tr self) w0 = (Ok tt, w1) ->
  respond_own tr self x w1 = (Raise e, w2) ->
  process_issues tr self w =
    (Ok tt,
     with_event
       (with_event w2 (LogError ("Agent error: " +:+ str_of_exn e)))
       (LogError (format_exc e))).
Proof.
  intros Htok Hcon Hf Hpre Hx.
  rewrite process_issues_truthy by assumption.
  unfold try_except. unfold bind at 1. rewrite scan_own_visit.
  now rewrite (visit_aborts _ _ _ _ _ _ _ _ _ _ _ _ Hf Hpre Hx).
Qed.

(** C8, amended.  A failure on one issue of a monitored repository is not
    kept from the issues after it: it ends the loop over that repository's
    issues.  The exception is logged under the repository's name and the
    handling of the repository returns, so the sweep goes on with the next
    monitored repository.  The issues after the failing one are not
    touched, and the failing step posts nothing. *)
Theorem issue_failure_ends_repository tr self g name w pre x rest w0 w1 w2 e :
  fetch tr g name w = (Ok (pre ++ x :: rest), w0) ->
  for_each pre (respond_other tr self name) w0 = (Ok tt, w1) ->
  respond_other tr self name x w1 = (Raise e, w2) ->
  monitor tr self g name w =
    (Ok tt,
     with_event w2
       (LogError ("Error monitoring " +:+ name +:+ ": " +:+ str_of_exn e))) /\
  comments w2 = comments w1.
Proof.
  intros Hf Hpre Hx. split.
  - rewrite monitor_visit. unfold try_except.
    now rewrite (visit_aborts _ _ _ _ _ _ _ _ _ _ _ _ Hf Hpre Hx).
  - pose proof (respond_other_raise_quiet tr self name x w1 e) as Hq.
    rewrite Hx in Hq. now apply Hq.
Qed.


(** * Further properties *)

(** ** Events of a run *)

Section Emits.

Context {P : list Event -> Prop} `{!TraceProp P}.

Lemma emits_ret {A} (a : A) : emits P (ret a).
Proof. intros w. exists []. split; [now rewrite app_nil_r | apply trace_nil]. Qed.

Lemma emits_raise {A} (e : Exn) : emits P (@raise A e).
Proof. intros w. exists []. split; [now rewrite app_nil_r | apply trace_nil]. Qed.

Lemma emits_lift {A} (r : result A) : emits P (lift r).
Proof. intros w. exists []. split; [now rewrite app_nil_r | apply trace_nil]. Qed.

Lemma emits_emit (ev : Event) : P [ev] -> emits P (emit ev).
Proof. intros H w. now exists [ev]. Qed.

Lemma emits_invoke tr (o : Op) : P [Call o] -> emits P (invoke tr o).
Proof.
  intros H w. exists [Call o]. unfold invoke.
  destruct (raises tr (trace w) o); now split.
Qed.

Lemma emits_bind_yields {A B} (m : M A) (k : A -> M B) (V : A -> Prop) :
  emits P m -> yields m V -> (forall a, V a -> emits P (k a)) ->
  emits P (bind m k).
Proof.
  intros Hm Hy Hk w. unfold bind.
  destruct (Hm w) as (e1 & E1 & P1).
  destruct (m w) as [[a | e] w1] eqn:E; cbn [snd] in *.
  - destruct (Hk a (Hy w a w1 E) w1) as (e2 & E2 & P2).
    exists (e1 ++ e2). split; [| now apply trace_app].
    now rewrite E2, E1, app_assoc.
  - now exists e1.
Qed.

Lemma emits_bind {A B} (m : M A) (k : A -> M B) :
  emits P m -> (forall a, emits P (k a)) -> emits P (bind m k).
Proof.
  intros Hm Hk.
  apply (emits_bind_yields m k (fun _ => True)); auto. now intros w a w' _.
Qed.

Lemma emits_try {A} (m : M A) (h : Exn -> M A) :
  emits P m -> (forall e, emits P (h e)) -> emits P (try_except m h).
Proof.
  intros Hm Hh w. unfold try_except.
  destruct (Hm w) as (e1 & E1 & P1).
  destruct (m w) as [[a | e] w1] eqn:E; cbn [snd] in *.
  - now exists e1.
  - destruct (Hh e w1) as (e2 & E2 & P2).
    exists (e1 ++ e2). split; [| now apply trace_app].
    now rewrite E2, E1, app_assoc.
Qed.

Lemma emits_for_each {A} (xs : list A) (body : A -> M unit) :
  (forall x, In x xs -> emits P (body x)) -> emits P (for_each xs body).
Proof.
  induction xs as [| x xs IH]; intros H; simpl.
  - apply emits_ret.
  - apply emits_bind; [apply H; now left |].
    intros _. apply IH. intros y Hy. apply H. now right.
Qed.

Lemma emits_connect tr tok : emits P (connect tr tok).
Proof.
  intros w. exists []. unfold connect.
  destruct (refuses tr tok); (split; [now rewrite app_nil_r | apply trace_nil]).
Qed.

Lemma emits_get_repo tr g name :
  P [Call (op_get_repo g name)] -> emits P (get_repo tr g name).
Proof.
  intros H. unfold get_repo. apply emits_bind; [now apply emits_invoke |].
  intros _. destruct (open_issues tr !! name);
    [apply emits_ret | apply emits_raise].
Qed.

Lemma emits_get_issues tr r :
  P [Call (op_get_issues (client r) (full_name r))] -> emits P (get_issues tr r).
Proof.
  intros H. unfold get_issues. apply emits_bind; [now apply emits_invoke |].
  intros _. apply emits_ret.
Qed.

(** The events of [reply]: the check alone, the check and the refused
    post, or the check, the post and the info record. *)
Lemma emits_reply tr self issue msg :
  let get := Call (op_get_comments (via issue) (repo issue) (number (data issue))) in
  let post text :=
    Call (op_create_comment (via issue) (repo issue) (number (data issue)) text) in
  P [get] ->
  (forall text,
      analyze_request self (title (data issue)) (body (data issue)) = Ok text ->
      P [get; post text] /\ P [get; post text; LogInfo msg]) ->
  emits P (reply tr self issue msg).
Proof.
  intros get post Hget Hpost w. rewrite reply_eval. cbv zeta.
  destruct (raises tr (trace w) _); [now exists [get] |].
  destruct (marked _); [now exists [get] |].
  destruct (analyze_request self _ _) as [text | e] eqn:Ha; [| now exists [get]].
  destruct (Hpost text eq_refl) as [H2 H3].
  destruct (raises tr _ _); cbn [snd with_event trace].
  - exists [get; post text]. split; [now rewrite <- app_assoc | exact H2].
  - exists [get; post text; LogInfo msg].
    split; [now rewrite <- !app_assoc | exact H3].
Qed.

Lemma emits_process_issues tr self :
  (forall msg, P [LogError msg]) ->
  (forall g name,
      configured self g name ->
      P [Call (op_get_repo g name)] /\ P [Call (op_get_issues g name)]) ->
  (forall issue msg,
      configured self (via issue) (repo issue) ->
      In (data issue) (issues_of tr (repo issue)) ->
      emits P (reply tr self issue msg)) ->
  emits P (process_issues tr self).
Proof.
  intros Hlog Hcall Hreply. unfold process_issues. apply emits_try.
  - destruct (negb (truthy (github_token self)));
      [apply emits_emit, Hlog |].
    eapply emits_bind_yields; [apply emits_connect | apply yields_connect |].
    intros g ->.
    eapply emits_bind_yields; [apply emits_connect | apply yields_connect |].
    intros cross_g ->.
    assert (Hown : configured self {| token := github_token self |} own_repository)
      by (left; now split).
    eapply emits_bind_yields;
      [apply emits_get_repo, Hcall, Hown | apply yields_get_repo |].
    intros r [Hc Hr].
    eapply emits_bind_yields;
      [apply emits_get_issues; rewrite Hc, Hr; apply Hcall, Hown
      | apply yields_get_issues |].
    intros issues Hi. apply emits_bind.
    + apply emits_for_each. intros x Hx.
      destruct (Hi x Hx) as (Hvia & Hrepo & Hin). rewrite Hc, Hr in *.
      rewrite respond_own_reply. apply Hreply.
      * now rewrite Hvia, Hrepo.
      * now rewrite Hrepo.
    + intros _. apply emits_for_each. intros name Hname.
      assert (Hother : configured self {| token := cross_repo_token self |} name)
        by (right; now split).
      unfold monitor. apply emits_try; [| intros e; apply emits_emit, Hlog].
      eapply emits_bind_yields;
        [apply emits_get_repo, Hcall, Hother | apply yields_get_repo |].
      intros r' [Hc' Hr'].
      eapply emits_bind_yields;
        [apply emits_get_issues; rewrite Hc', Hr'; apply Hcall, Hother
        | apply yields_get_issues |].
      intros issues' Hi'. apply emits_for_each. intros x Hx.
      destruct (Hi' x Hx) as (Hvia & Hrepo & Hin). rewrite Hc', Hr' in *.
      rewrite respond_other_reply. apply emits_bind; [apply emits_lift |].
      intros [|]; [| apply emits_ret]. apply Hreply.
      * now rewrite Hvia, Hrepo.
      * now rewrite Hrepo.
  - intros e. apply emits_bind; [apply emits_emit, Hlog |].
    intros _. apply emits_emit, Hlog.
Qed.

End Emits.

(** ** Which repositories are addressed, and with which credential *)

#[local] Instance each_event_trace (Q : Event -> Prop) : TraceProp (List.Forall Q).
Proof.
  split; [constructor |]. intros a b Ha Hb. apply List.Forall_app. now split.
Qed.

Ltac each_event :=
  repeat first [apply List.Forall_nil | apply List.Forall_cons];
  cbn [configured_event op_client op_repo]; trivial.

Lemma process_issues_configured tr self :
  emits (List.Forall (configured_event self)) (process_issues tr self).
Proof.
  apply emits_process_issues.
  - intros msg. each_event.
  - intros g name H. split; each_event.
  - intros issue msg H _. apply emits_reply; [each_event |].
    intros text _. split; each_event.
Qed.

(** X1.  [main] always returns, and every collaborator call it makes
    addresses the own repository with the token of GITHUB_TOKEN or a
    monitored repository with the token of CROSS_REPO_TOKEN, which falls
    back to GITHUB_TOKEN when the variable is not set. *)
Theorem main_addresses_configured_repositories (environ : Environ) tr w :
  fst (main environ tr w) = Ok tt /\
  exists events,
    trace (snd (main environ tr w)) = trace w ++ events /\
    forall o, In (Call o) events ->
      (op_repo o = own_repository /\
       token (op_client o) = environ !! "GITHUB_TOKEN") \/
      (In (op_repo o) repos_to_monitor /\
       token (op_client o) =
         match environ !! "CROSS_REPO_TOKEN" with
         | Some t => Some t
         | None => environ !! "GITHUB_TOKEN"
         end).
Proof.
  split.
  - unfold main, bind, logger_info, emit. apply process_issues_ok.
  - assert (H : emits (List.Forall (configured_event (init environ)))
                  (main environ tr)).
    { unfold main. apply emits_bind.
      - apply emits_emit. each_event.
      - intros _. apply process_issues_configured. }
    destruct (H w) as (events & E & Hall). exists events. split; [exact E |].
    intros o Ho. rewrite List.Forall_forall in Hall.
    specialize (Hall (Call o) Ho). cbn [configured_event] in Hall.
    destruct Hall as [[Hg Hn] | [Hg Hn]]; rewrite Hg; [left | right];
      split; try exact Hn; reflexivity.
Qed.

(** ** Posting follows checking *)

Lemma disciplined_weaken prev events :
  disciplined_from None events -> disciplined_from prev events.
Proof.
  destruct events as [| ev rest]; [trivial |]. intros [Hev Hrest].
  split; [| exact Hrest].
  destruct ev as [[] | |]; cbn [event_ok] in *; trivial.
  - now destruct Hev.
  - now destruct Hev as (g & name & n & text & H).
Qed.

Lemma disciplined_app prev a b :
  disciplined_from prev a -> disciplined_from None b ->
  disciplined_from prev (a ++ b).
Proof.
  revert prev. induction a as [| ev a IH]; intros prev Ha Hb; simpl.
  - now apply disciplined_weaken.
  - destruct Ha as [Hev Ha]. split; [exact Hev | now apply IH].
Qed.

#[local] Instance disciplined_trace : TraceProp disciplined.
Proof.
  split; [exact I |]. intros a b. apply disciplined_app.
Qed.

Lemma disciplined_split prev pre ev rest :
  disciplined_from prev (pre ++ ev :: rest) ->
  exists before,
    event_ok before ev /\
    ((pre = [] /\ before = prev) \/
     (exists pre' x, pre = pre' ++ [x] /\ before = Some x)).
Proof.
  revert prev. induction pre as [| x pre IH]; intros prev H; simpl in H.
  - exists prev. split; [apply H | now left].
  - destruct H as [_ H]. destruct (IH _ H) as (before & Hok & Hcase).
    exists before. split; [exact Hok |]. right.
    destruct Hcase as [[-> ->] | (pre' & y & -> & ->)].
    + now exists [], x.
    + now exists (x :: pre'), y.
Qed.

Lemma process_issues_disciplined tr self :
  emits disciplined (process_issues tr self).
Proof.
  apply emits_process_issues.
  - intros msg. now split.
  - intros g name _. split; now split.
  - intros issue msg _ _. apply emits_reply; [now split |].
    intros text Ha. apply analyze_request_marker in Ha.
    split; unfold disciplined; cbn [disciplined_from event_ok];
      repeat split; eauto.
Qed.

(** X2.  Among the events of a sweep, every [create_comment] call comes
    immediately after the [get_comments] call on the same issue through the
    same client and carries a text with the marker, and every info record
    comes immediately after a [create_comment] call. *)
Theorem posts_follow_checks tr self w :
  exists events,
    trace (sweep tr self w) = trace w ++ events /\
    (forall pre g name n text rest,
        events = pre ++ Call (op_create_comment g name n text) :: rest ->
        contains marker text = true /\
        exists pre', pre = pre' ++ [Call (op_get_comments g name n)]) /\
    (forall pre msg rest,
        events = pre ++ LogInfo msg :: rest ->
        exists pre' g name n text,
          pre = pre' ++ [Call (op_create_comment g name n text)]).
Proof.
  destruct (process_issues_disciplined tr self w) as (events & E & H).
  exists events. split; [exact E |]. split.
  - intros pre g name n text rest ->.
    destruct (disciplined_split _ _ _ _ H) as (before & [Hb Hm] & Hcase).
    split; [exact Hm |].
    destruct Hcase as [[_ ->] | (pre' & x & -> & ->)]; [discriminate |].
    injection Hb as ->. now exists pre'.
  - intros pre msg rest ->.
    destruct (disciplined_split _ _ _ _ H)
      as (before & (g & name & n & text & Hb) & Hcase).
    destruct Hcase as [[_ ->] | (pre' & x & -> & ->)]; [discriminate |].
    injection Hb as ->. now exists pre', g, name, n, text.
Qed.


(** ** Which comment lists a sweep can change *)

Lemma sweep_unlisted_same tr self name num w :
  ~ In name (own_repository :: repos_to_monitor) \/
  (forall d, In d (issues_of tr name) -> number d <> num) ->
  same_at (name, num) w (sweep tr self w).
Proof.
  intros H.
  assert (Hkey : forall issue,
             In (repo issue) (own_repository :: repos_to_monitor) ->
             In (data issue) (issues_of tr (repo issue)) ->
             key_of issue <> (name, num)).
  { intros issue Hconf Hin. unfold key_of. intros [= E1 E2].
    rewrite E1 in *. destruct H as [H | H]; [contradiction |].
    now apply (H _ Hin). }
  apply (steps_process_issues (R := same_at (name, num))).
  - intros issue Hrepo Hin. rewrite respond_own_reply. apply reply_same_at.
    apply Hkey; rewrite Hrepo; [now left | exact Hin].
  - intros other issue Hother Hrepo Hin. apply respond_other_same_at. left.
    apply Hkey; rewrite Hrepo; [now right | exact Hin].
Qed.

(** X3.  No number of sweeps changes the comments of an issue of a
    repository other than the own and the monitored ones, or of an issue
    number the tracker does not list among the open issues of its
    repository. *)
Theorem only_listed_issues_change tr self n w name num :
  ~ In name (own_repository :: repos_to_monitor) \/
  (forall d, In d (issues_of tr name) -> number d <> num) ->
  comments_of (sweeps tr self n w) (name, num) = comments_of w (name, num).
Proof.
  intros H. induction n as [| n IH]; [reflexivity |].
  rewrite sweeps_succ. rewrite <- IH. now apply sweep_unlisted_same.
Qed.

(** ** Where a posted comment comes from *)

#[local] Instance posted_from_run Q k : RunRel (posted_from Q k).
Proof.
  split.
  - intros w. now left.
  - intros w1 w2 w3 [E12 | (U1 & r & Qr & Hr & E12)]
      [E23 | (U2 & s & Qs & Hs & E23)].
    + left. congruence.
    + right. rewrite E12 in *. split; [exact U2 |]. now exists s.
    + right. split; [exact U1 |]. exists r.
      split; [exact Qr |]. split; [exact Hr | congruence].
    + rewrite E12, marked_snoc, Hr, orb_true_r in U2. discriminate.
  - intros w ev. now left.
Qed.

Lemma reply_posted_from tr self issue msg Q k :
  (key_of issue = k ->
   forall text,
     analyze_request self (title (data issue)) (body (data issue)) = Ok text ->
     Q text) ->
  steps (posted_from Q k) (reply tr self issue msg).
Proof.
  intros HQ w. rewrite reply_eval. cbv zeta.
  destruct (raises tr (trace w) _); [now left |].
  destruct (marked (comments_of w (key_of issue))) eqn:Hm; [now left |].
  destruct (analyze_request self _ _) as [text | e] eqn:Ha; [| now left].
  destruct (raises tr _ _); [now left |].
  unfold posted_from. cbn [snd].
  rewrite comments_of_event, comments_of_insert.
  destruct (decide (key_of issue = k)) as [E | Hne]; [| now left].
  right. rewrite <- E. split; [exact Hm |]. exists text.
  split; [now apply HQ |]. split; [| reflexivity].
  eapply analyze_request_marker. exact Ha.
Qed.

Lemma mentions_ecommerce_relevant issue :
  mentions_ecommerce issue = Ok true -> relevant (data issue).
Proof.
  unfold mentions_ecommerce, py_lower, relevant.
  destruct (body (data issue)) as [b |]; [| discriminate].
  intros [= H]. exists b. now split.
Qed.

Lemma analyze_request_answer tr self issue text :
  In (data issue) (issues_of tr (repo issue)) ->
  (In (repo issue) repos_to_monitor -> relevant (data issue)) ->
  analyze_request self (title (data issue)) (body (data issue)) = Ok text ->
  answer_to tr self (key_of issue) text.
Proof.
  intros Hin Hrel Ha. destruct (body (data issue)) as [b |] eqn:Hb.
  - rewrite analyze_request_text in Ha. injection Ha as <-.
    exists (data issue), b. unfold key_of. cbn [fst snd]. now repeat split.
  - rewrite analyze_request_classify in Ha. discriminate Ha.
Qed.

Lemma sweep_posted_from tr self k w :
  posted_from (answer_to tr self k) k w (sweep tr self w).
Proof.
  apply (steps_process_issues (R := posted_from (answer_to tr self k) k)).
  - intros issue Hrepo Hin. rewrite respond_own_reply.
    apply reply_posted_from. intros <- text Ha.
    apply analyze_request_answer; [now rewrite Hrepo | | exact Ha].
    rewrite Hrepo. intros Hmon.
    now apply own_repository_not_monitored in Hmon.
  - intros name issue Hname Hrepo Hin. rewrite respond_other_reply.
    eapply (steps_bind_yields _ _ (fun rel => rel = true -> relevant (data issue))).
    + apply steps_lift.
    + intros w0 rel w1. unfold lift. intros [= Hrel _] ->.
      now apply mentions_ecommerce_relevant.
    + intros [|] Hrel; [| apply steps_ret].
      apply reply_posted_from. intros <- text Ha.
      apply analyze_request_answer; [now rewrite Hrepo | | exact Ha].
      intros _. now apply Hrel.
Qed.

(** X4.  Whatever fails and however many sweeps run, an issue has received
    nothing, or exactly one comment that is the classifier's response to
    the title and body of an open issue the tracker lists under that
    repository and number, one that passes the relevance filter if the
    repository is a monitored one. *)
Theorem posted_comment_is_classifier_response tr self n w k :
  comments_of (sweeps tr self n w) k = comments_of w k \/
  exists r,
    answer_to tr self k r /\
    comments_of (sweeps tr self n w) k = comments_of w k ++ [r].
Proof.
  assert (H : posted_from (answer_to tr self k) k w (sweeps tr self n w)).
  { induction n as [| n IH]; simpl.
    - apply run_refl.
    - eapply run_trans; [exact IH | apply sweep_posted_from]. }
  destruct H as [E | (_ & r & Qr & _ & E)]; [now left | right].
  now exists r.
Qed.

(** ** Many sweeps *)

(** X5.  On a tracker that fails on the same operations in every run, the
    comments are settled after the first sweep: any number of further
    sweeps leaves every comment list as the first sweep left it. *)
Theorem comments_settle_after_first_sweep tr self n w :
  stationary tr ->
  comments (sweeps tr self (S n) w) = comments (sweep tr self w).
Proof. intros Hst. now apply sweeps_settle. Qed.

(** ** The empty credential *)

(** X6.  A GITHUB_TOKEN set to the empty string counts as missing, also
    when CROSS_REPO_TOKEN is set: [main] logs its start and the error,
    makes no collaborator call and changes no comment. *)
Theorem empty_token_counts_as_missing (environ : Environ) tr w :
  environ !! "GITHUB_TOKEN" = Some "" ->
  main environ tr w =
  (Ok tt,
   with_event
     (with_event w
        (LogInfo "WooCommerce Sync Coordinator starting - Managing e-commerce integration"))
     (LogError "GITHUB_TOKEN not set")).
Proof.
  intros H. unfold main, bind, logger_info, emit.
  rewrite process_issues_falsy; [reflexivity |].
  unfold init. cbn [github_token]. now rewrite H.
Qed.


(** ** The space between title and body *)

Lemma startswith_no_space (w a b : string) :
  no_space w = true ->
  startswith w (a +:+ " " +:+ b) = startswith w a.
Proof.
  revert a. induction w as [| c w IH]; intros a Hw; [reflexivity |].
  simpl in Hw. apply andb_true_iff in Hw as [Hc Hw].
  destruct a as [| x a]; simpl.
  - apply negb_true_iff in Hc. now rewrite Hc.
  - now rewrite IH.
Qed.

Lemma contains_no_space (w a b : string) :
  no_space w = true ->
  contains w (a +:+ " " +:+ b) = contains w a || contains w b.
Proof.
  intros Hw. induction a as [| x a IH].
  - change (contains w ("" +:+ " " +:+ b))
      with (startswith w ("" +:+ " " +:+ b) || contains w b).
    rewrite startswith_no_space by exact Hw.
    simpl. now rewrite orb_false_r.
  - change (contains w (String x a +:+ " " +:+ b))
      with (startswith w (String x a +:+ " " +:+ b) ||
            contains w (a +:+ " " +:+ b)).
    rewrite startswith_no_space by exact Hw. rewrite IH.
    simpl. now rewrite !orb_assoc.
Qed.

Lemma any_in_no_space (keywords : list string) (a b : string) :
  forallb no_space keywords = true ->
  any_in keywords (a +:+ " " +:+ b) = any_in keywords a || any_in keywords b.
Proof.
  unfold any_in. induction keywords as [| w keywords IH]; intros H;
    cbn [existsb forallb] in *.
  - reflexivity.
  - apply andb_true_iff in H as [Hw H].
    rewrite contains_no_space by exact Hw. rewrite IH by exact H.
    destruct (contains w a), (contains w b),
      (existsb (fun word => contains word a) keywords),
      (existsb (fun word => contains word b) keywords); reflexivity.
Qed.

(** X8.  No keyword of the classifier matches across the space that joins
    title and body: each guard matches exactly when it matches the title or
    the body on its own.  So the category does not change when title and
    body are exchanged. *)
Theorem classifier_keywords_stay_within_title_or_body (t b : string) :
  (forall row,
      In row priority_table ->
      any_in (snd row) (request_text t b) =
      any_in (snd row) (str_lower t) || any_in (snd row) (str_lower b)) /\
  classify t (Some b) = classify b (Some t).
Proof.
  split.
  - intros row Hrow. unfold request_text. apply any_in_no_space.
    simpl in Hrow.
    destruct Hrow as [<- | [<- | [<- | [<- | []]]]]; reflexivity.
  - rewrite !classify_text. f_equal. unfold category_of, request_text.
    rewrite !any_in_no_space by reflexivity.
    repeat match goal with
           | |- context [any_in ?k ?s] => destruct (any_in k s)
           end; reflexivity.
Qed.

(** X9.  The relevance filter is different: its two-word keywords match
    across the joint.  A title that ends with the first word and a body that
    starts with the second pass the filter, whatever else they hold. *)
Theorem relevance_keyword_spans_title_and_body (kw1 kw2 t b : string) (n : Z) :
  In (kw1 +:+ " " +:+ kw2) relevance_keywords ->
  relevant {| number := n; title := t +:+ kw1; body := Some (kw2 +:+ b) |}.
Proof.
  intros Hin. exists (kw2 +:+ b). split; [reflexivity |]. cbn [title].
  apply any_in_true. exists (kw1 +:+ " " +:+ kw2). split; [exact Hin |].
  assert (Hl : lower (kw1 +:+ " " +:+ kw2) = kw1 +:+ " " +:+ kw2 /\
               is_ascii (kw1 +:+ " " +:+ kw2) = true).
  { unfold relevance_keywords in Hin. cbn [In] in Hin.
    destruct Hin as [E | [E | [E | [E | [E | [E | [E | []]]]]]]];
      rewrite <- E; now split. }
  destruct Hl as [Hl Ha].
  rewrite !is_ascii_append in Ha.
  apply andb_true_iff in Ha as [Ha1 Ha2].
  apply andb_true_iff in Ha2 as [_ Ha2].
  destruct (str_lower_ascii_infix t kw1 "" Ha1) as (x & y & E1 & _ & Hy).
  rewrite (Hy eq_refl), !append_empty_r in E1.
  destruct (str_lower_ascii_infix "" kw2 b Ha2) as (x' & y' & E2 & Hx' & _).
  rewrite (Hx' eq_refl) in E2. cbn [append] in E2.
  unfold request_text. rewrite E1, E2.
  replace ((x +:+ lower kw1) +:+ " " +:+ lower kw2 +:+ y')
    with (x +:+ lower (kw1 +:+ " " +:+ kw2) +:+ y')
    by (rewrite !lower_append, !append_assoc; reflexivity).
  rewrite Hl. apply contains_intro.
Qed.

(** ** The keyword both guards share *)

(** X10.  "webhook" never leads to the configuration text: a text
    classified configuration has no "webhook" and has "config", "setup" or
    "api"; a text with "webhook" is classified product_sync or
    order_sync. *)
Theorem configuration_never_by_webhook (t b : string) :
  (classify t (Some b) = Ok configuration ->
   contains "webhook" (request_text t b) = false /\
   any_in ["config"; "setup"; "api"] (request_text t b) = true) /\
  (contains "webhook" (request_text t b) = true ->
   classify t (Some b) = Ok product_sync \/
   classify t (Some b) = Ok order_sync).
Proof.
  rewrite classify_text. unfold category_of.
  set (text := request_text t b). split.
  - destruct (any_in ["product"; "sync"; "variant"; "color"] text);
      [discriminate |].
    destruct (any_in ["order"; "webhook"; "real-time"] text) eqn:Ho;
      [discriminate |].
    destruct (any_in ["job"; "queue"; "async"; "background"] text);
      [discriminate |].
    destruct (any_in ["config"; "setup"; "webhook"; "api"] text) eqn:Hc;
      [| discriminate].
    intros _. unfold any_in in *. cbn [existsb] in *.
    destruct (contains "webhook" text).
    + rewrite orb_true_r in Ho. discriminate Ho.
    + split; [reflexivity |].
      destruct (contains "config" text), (contains "setup" text),
        (contains "api" text); try reflexivity.
      discriminate Hc.
  - intros Hw.
    assert (Ho : any_in ["order"; "webhook"; "real-time"] text = true).
    { unfold any_in. cbn [existsb]. rewrite Hw. apply orb_true_r. }
    rewrite Ho.
    destruct (any_in ["product"; "sync"; "variant"; "color"] text);
      [now left | now right].
Qed.


(** ** Letter case *)

Lemma ascii_keyword_any_case (keywords : list string) (t b v : string) :
  is_ascii v = true ->
  contains v t = true \/ contains v b = true ->
  In (lower v) keywords ->
  any_in keywords (request_text t b) = true.
Proof.
  intros Hv Hraw Hin. apply any_in_true. exists (lower v). split; [exact Hin |].
  unfold request_text. destruct Hraw as [H | H].
  - apply contains_append_l. now apply contains_str_lower.
  - apply contains_append_r, contains_append_r. now apply contains_str_lower.
Qed.

(** X11.  Whatever the interpreter's [str.lower] does outside ASCII, the
    guards do not tell the letter cases of their keywords apart: an ASCII
    word of the title or the body whose lower-case form is in a keyword
    list makes that list match; every keyword of the classifier and of the
    relevance filter is ASCII, so any spelling of a product_sync keyword
    gets the product text and any spelling of a relevance keyword passes
    the relevance filter. *)
Theorem keyword_case_ignored_by_every_interpreter self (t b v : string) :
  contains v t = true \/ contains v b = true ->
  (forall keywords,
      is_ascii v = true -> In (lower v) keywords ->
      any_in keywords (request_text t b) = true) /\
  (forall row,
      In row priority_table -> In (lower v) (snd row) ->
      any_in (snd row) (request_text t b) = true) /\
  (In (lower v) ["product"; "sync"; "variant"; "color"] ->
   classify t (Some b) = Ok product_sync /\
   analyze_request self t (Some b) =
   Ok (handle_product_sync_request self t (Some b))) /\
  (In (lower v) relevance_keywords ->
   forall n, relevant {| number := n; title := t; body := Some b |}).
Proof.
  intros Hraw. split; [| split; [| split]].
  - intros keywords Hv Hin. now apply (ascii_keyword_any_case keywords t b v).
  - intros row Hrow Hin.
    apply (ascii_keyword_any_case (snd row) t b v); [| exact Hraw | exact Hin].
    apply (in_ascii_words (snd row)); [| exact Hin].
    simpl in Hrow. destruct Hrow as [<- | [<- | [<- | [<- | []]]]]; reflexivity.
  - intros Hin.
    assert (Hany : any_in ["product"; "sync"; "variant"; "color"]
                     (request_text t b) = true).
    { apply (ascii_keyword_any_case _ t b v); [| exact Hraw | exact Hin].
      now apply (in_ascii_words ["product"; "sync"; "variant"; "color"]). }
    assert (Hc : classify t (Some b) = Ok product_sync).
    { rewrite classify_text. unfold category_of. now rewrite Hany. }
    split; [exact Hc |]. now rewrite analyze_request_classify, Hc.
  - intros Hin n. exists b. split; [reflexivity |].
    apply (ascii_keyword_any_case _ t b v); [| exact Hraw | exact Hin].
    now apply (in_ascii_words relevance_keywords).
Qed.
End Coordinator.

(** * The examples *)

(** The examples are written in ASCII, on which every interpreter computes
    the same lower-case form; they are run on the interpreter that
    lower-cases the ASCII letters and leaves every other byte alone. *)
Lemma lower_ascii_infix (a v c : string) :
  is_ascii v = true ->
  exists x y : string,
    lower (a +:+ v +:+ c) = x +:+ lower v +:+ y /\
    (a = "" -> x = "") /\ (c = "" -> y = "").
Proof.
  intros _. exists (lower a), (lower c). rewrite !lower_append.
  split; [reflexivity |]. split; intros ->; reflexivity.
Qed.

#[global] Instance ascii_interpreter : StrLower :=
  {| str_lower := lower; str_lower_ascii_infix := lower_ascii_infix |}.

Lemma ex_token : truthy (github_token ex_agent) = true.
Proof. vm_compute. reflexivity. Qed.

Lemma ex_issues_of tr name :
  open_issues tr = ex_issues ->
  In name (own_repository :: repos_to_monitor) ->
  is_Some (open_issues tr !! name) /\
  forall d, In d (issues_of tr name) -> is_Some (body d).
Proof.
  intros E Hname. unfold issues_of. rewrite E. simpl in Hname.
  destruct Hname as [<- | [<- | [<- | [<- | []]]]];
    (split; [vm_compute; eexists; reflexivity |]);
    intros d Hd; vm_compute in Hd;
    repeat (destruct Hd as [<- | Hd]; [eexists; reflexivity |]);
    destruct Hd.
Qed.

Lemma ex_tracker_healthy name :
  In name (own_repository :: repos_to_monitor) -> healthy ex_tracker name.
Proof.
  intros Hname. destruct (ex_issues_of ex_tracker name eq_refl Hname) as [H1 H2].
  split; [exact H1 |]. split; [exact H2 |]. reflexivity.
Qed.

Lemma ex_tracker_own_down_healthy name :
  In name repos_to_monitor -> healthy ex_tracker_own_down name.
Proof.
  intros Hname.
  destruct (ex_issues_of ex_tracker_own_down name eq_refl (or_intror Hname))
    as [H1 H2].
  split; [exact H1 |]. split; [exact H2 |].
  intros history [] Ho; try reflexivity. cbn [op_repo] in Ho. subst.
  cbn [raises ex_tracker_own_down].
  destruct (String.eqb_spec name own_repository) as [-> | _]; [| reflexivity].
  now apply own_repository_not_monitored in Hname.
Qed.

Lemma ex_tracker_locked_healthy name :
  In name (own_repository :: repos_to_monitor) -> name <> odoo_operations ->
  healthy ex_tracker_locked name.
Proof.
  intros Hname Hne.
  destruct (ex_issues_of ex_tracker_locked name eq_refl Hname) as [H1 H2].
  split; [exact H1 |]. split; [exact H2 |].
  intros history [] Ho; try reflexivity. cbn [op_repo] in Ho. subst.
  cbn [raises ex_tracker_locked].
  destruct (String.eqb_spec name odoo_operations) as [-> | _];
    [contradiction | reflexivity].
Qed.

Lemma ex_issue8_relevant : relevant ex_issue8.
Proof. eexists. split; [reflexivity | vm_compute; reflexivity]. Qed.

Lemma ex_issue3_relevant : relevant ex_issue3.
Proof. eexists. split; [reflexivity | vm_compute; reflexivity]. Qed.

Lemma ex_issue7_irrelevant : irrelevant ex_issue7.
Proof. intros b [= <-]. vm_compute. reflexivity. Qed.

(** The scenario of the specification: the issue titled "Product variant
    sync fails for colors", with an empty body, is classified product_sync
    and receives the product text, which bears the marker and the product
    heading. *)
Example scenario_product_variant :
  classify (title ex_issue1) (body ex_issue1) = Ok product_sync /\
  comments_of (sweep ex_tracker ex_agent ex_world) (own_repository, 1%Z) =
    [handle_product_sync_request ex_agent (title ex_issue1) (body ex_issue1)] /\
  contains marker
    (handle_product_sync_request ex_agent (title ex_issue1) (body ex_issue1)) = true /\
  contains "Response - Product Synchronization"
    (handle_product_sync_request ex_agent (title ex_issue1) (body ex_issue1)) = true.
Proof. repeat split; vm_compute; reflexivity. Qed.

(** ** An interpreter that knows more than ASCII *)

(** [lower_wide] satisfies what is assumed of [str_lower] as well: an ASCII
    word of the text is lower-cased in place, whatever surrounds it. *)
Lemma lower_wide_cons c1 s1 :
  lower_wide (String c1 s1) =
  match s1 with
  | String c2 s2 =>
    if Ascii.eqb c1 "196" && Ascii.eqb c2 "176"
    then String "i" (append combining_dot_above (lower_wide s2))
    else
      match s2 with
      | String c3 s3 =>
        if Ascii.eqb c1 "226" && Ascii.eqb c2 "132" && Ascii.eqb c3 "170"
        then String "k" (lower_wide s3)
        else String (lower_ascii c1) (lower_wide s1)
      | EmptyString => String (lower_ascii c1) (lower_wide s1)
      end
  | EmptyString => String (lower_ascii c1) (lower_wide s1)
  end.
Proof. destruct s1 as [| c2 [| c3 s3]]; reflexivity. Qed.

Lemma ascii_byte_not (d c : ascii) :
  (N_of_ascii d <? 128)%N = true -> (N_of_ascii c <? 128)%N = false ->
  Ascii.eqb d c = false.
Proof.
  intros Hd Hc. destruct (Ascii.eqb_spec d c) as [-> | _]; [congruence | reflexivity].
Qed.

Lemma lower_wide_ascii_head d s :
  (N_of_ascii d <? 128)%N = true ->
  lower_wide (String d s) = String (lower_ascii d) (lower_wide s).
Proof.
  intros Hd. rewrite lower_wide_cons.
  rewrite (ascii_byte_not d "196" Hd eq_refl), (ascii_byte_not d "226" Hd eq_refl).
  destruct s as [| c2 [| c3 s3]]; reflexivity.
Qed.

Lemma lower_wide_ascii v c :
  is_ascii v = true -> lower_wide (v +:+ c) = lower v +:+ lower_wide c.
Proof.
  induction v as [| d v IH]; intros Hv; [reflexivity |].
  simpl in Hv. apply andb_true_iff in Hv as [Hd Hv].
  change (String d v +:+ c) with (String d (v +:+ c)).
  rewrite lower_wide_ascii_head by exact Hd. rewrite IH by exact Hv. reflexivity.
Qed.

Lemma lower_wide_before_ascii n : forall (a : string) (d : ascii) (w : string),
  String.length a <= n ->
  (N_of_ascii d <? 128)%N = true ->
  lower_wide (a +:+ String d w) = lower_wide a +:+ lower_wide (String d w).
Proof.
  induction n as [| n IH]; intros a d w Hn Hd.
  - destruct a; [reflexivity | simpl in Hn; lia].
  - destruct a as [| c1 a1]; [reflexivity |].
    change (String c1 a1 +:+ String d w) with (String c1 (a1 +:+ String d w)).
    rewrite (lower_wide_cons c1 (a1 +:+ String d w)), (lower_wide_cons c1 a1).
    destruct a1 as [| c2 a2].
    + change ("" +:+ String d w) with (String d w). cbv beta iota.
      rewrite (ascii_byte_not d "176" Hd eq_refl), andb_false_r.
      rewrite (ascii_byte_not d "132" Hd eq_refl), andb_false_r.
      destruct w; reflexivity.
    + change (String c2 a2 +:+ String d w) with (String c2 (a2 +:+ String d w)).
      cbv beta iota.
      destruct (Ascii.eqb c1 "196" && Ascii.eqb c2 "176").
      * rewrite IH by first [exact Hd | simpl in *; lia]. reflexivity.
      * destruct a2 as [| c3 a3].
        -- change ("" +:+ String d w) with (String d w). cbv beta iota.
           rewrite (ascii_byte_not d "170" Hd eq_refl), andb_false_r.
           change (String c2 (String d w)) with (String c2 "" +:+ String d w).
           rewrite IH by first [exact Hd | simpl in *; lia]. reflexivity.
        -- change (String c3 a3 +:+ String d w) with (String c3 (a3 +:+ String d w)).
           cbv beta iota.
           destruct (Ascii.eqb c1 "226" && Ascii.eqb c2 "132" && Ascii.eqb c3 "170").
           ++ rewrite IH by first [exact Hd | simpl in *; lia]. reflexivity.
           ++ change (String c2 (String c3 (a3 +:+ String d w)))
                with (String c2 (String c3 a3) +:+ String d w).
              rewrite IH by first [exact Hd | simpl in *; lia]. reflexivity.
Qed.

Lemma lower_wide_ascii_infix (a v c : string) :
  is_ascii v = true ->
  exists x y : string,
    lower_wide (a +:+ v +:+ c) = x +:+ lower v +:+ y /\
    (a = "" -> x = "") /\ (c = "" -> y = "").
Proof.
  intros Hv. destruct v as [| d v].
  - destruct a as [| c1 a1].
    + exists "", (lower_wide c). split; [reflexivity |].
      split; [reflexivity | now intros ->].
    + exists (lower_wide (String c1 a1 +:+ c)), "".
      split; [now rewrite append_empty_r |]. split; [discriminate | reflexivity].
  - exists (lower_wide a), (lower_wide c).
    split; [| split; intros ->; reflexivity].
    pose proof Hv as Hd. simpl in Hd. apply andb_true_iff in Hd as [Hd _].
    change (String d v +:+ c) with (String d (v +:+ c)).
    rewrite (lower_wide_before_ascii (String.length a)) by (lia || exact Hd).
    change (String d (v +:+ c)) with (String d v +:+ c).
    now rewrite lower_wide_ascii.
Qed.

#[global] Instance wide_interpreter : StrLower | 100 :=
  {| str_lower := lower_wide; str_lower_ascii_infix := lower_wide_ascii_infix |}.

(** Outside ASCII the answer depends on the interpreter.  With the Kelvin
    sign for the last letter of WEBHOOK, the interpreter that knows its
    lower-case form finds "webhook", passes the relevance filter and gives
    the order text; with U+0130 for the last letter of API it finds "api"
    and gives the configuration text.  The ASCII interpreter finds neither
    keyword. *)
Example interpreter_matters_outside_ascii :
  let t1 := "WEBHOO" +:+ kelvin_sign +:+ " timeout" in
  let t2 := "AP" +:+ dotted_capital_i +:+ " limits" in
  classify (interpreter := wide_interpreter) t1 (Some "") = Ok order_sync /\
  relevant (interpreter := wide_interpreter)
    {| number := 1; title := t1; body := Some "" |} /\
  classify (interpreter := wide_interpreter) t2 (Some "") = Ok configuration /\
  classify (interpreter := ascii_interpreter) t1 (Some "") = Ok general /\
  irrelevant (interpreter := ascii_interpreter)
    {| number := 1; title := t1; body := Some "" |} /\
  classify (interpreter := ascii_interpreter) t2 (Some "") = Ok general.
Proof.
  cbv zeta. split; [vm_compute; reflexivity |].
  split; [eexists; split; [reflexivity | vm_compute; reflexivity] |].
  split; [vm_compute; reflexivity |].
  split; [vm_compute; reflexivity |].
  split; [intros b [= <-]; vm_compute; reflexivity |].
  vm_compute; reflexivity.
Qed.

(** C1, as stated, fails when the tracker refuses the comment: issue 8 of
    the first monitored repository is open, relevant and bears no marker,
    the comment on it is refused with 403 Forbidden, and no number of
    sweeps gives it the one comment the claim promises. *)
Lemma refused_comment_leaves_issue_unanswered :
  In ex_issue8 (issues_of ex_tracker_locked odoo_operations) /\
  relevant ex_issue8 /\
  marked (comments_of ex_world (odoo_operations, 8%Z)) = false /\
  raises ex_tracker_locked []
    (op_create_comment {| token := cross_repo_token ex_agent |} odoo_operations 8
       order_sync_text) = Some (GithubException "403 Forbidden") /\
  (forall n, comments_of (sweeps ex_tracker_locked ex_agent n ex_world)
               (odoo_operations, 8%Z) = []) /\
  ~ exists r,
      comments_of (sweep ex_tracker_locked ex_agent ex_world) (odoo_operations, 8%Z) =
      comments_of ex_world (odoo_operations, 8%Z) ++ [r].
Proof.
  split; [vm_compute; right; now left |].
  split; [exact ex_issue8_relevant |].
  split; [reflexivity |].
  split; [reflexivity |].
  split.
  - intros [| n]; [reflexivity |]. unfold comments_of.
    rewrite sweeps_settle by (intros history history' o; reflexivity).
    vm_compute. reflexivity.
  - intros [r H]. vm_compute in H. discriminate H.
Qed.

Lemma at_most_once_per_issue_witness :
  exists r,
    contains marker r = true /\
    comments_of (sweeps ex_tracker ex_agent 2 ex_world) (odoo_operations, 8%Z) =
    comments_of ex_world (odoo_operations, 8%Z) ++ [r].
Proof.
  destruct (at_most_once_per_issue ex_tracker ex_agent ex_world
              (odoo_operations, 8%Z) 1) as (_ & _ & H).
  apply H.
  - reflexivity.
  - exact ex_token.
  - reflexivity.
  - reflexivity.
  - apply ex_tracker_healthy. now left.
  - right. exists odoo_operations, ex_issue8.
    split; [now left |].
    split; [apply ex_tracker_healthy; right; now left |].
    split; [vm_compute; right; now left |].
    split; [exact ex_issue8_relevant | reflexivity].
Defined.

(** A client that cannot be built ends the sweep as well.  With an empty
    CROSS_REPO_TOKEN the primary credential is set and the fallback does
    not apply; a client library that refuses the empty token raises while
    the second client is built, the outer handler logs an agent error, and
    no collaborator operation is invoked although nothing fails on the
    tracker. *)
Lemma empty_cross_token_ends_sweep :
  truthy (github_token (init ex_environ_empty_cross)) = true /\
  cross_repo_token (init ex_environ_empty_cross) = Some "" /\
  process_issues ex_tracker_strict (init ex_environ_empty_cross) ex_world =
    (Ok tt,
     with_event
       (with_event ex_world (LogError "Agent error: "))
       (LogError (format_exc (AssertionError "")))) /\
  comments (sweeps ex_tracker_strict (init ex_environ_empty_cross) 3 ex_world) = ∅ /\
  comments_of (sweep ex_tracker (init ex_environ_empty_cross) ex_world)
    (own_repository, 1%Z) <> [].
Proof.
  split; [vm_compute; reflexivity |].
  split; [vm_compute; reflexivity |].
  split; [vm_compute; reflexivity |].
  split; [vm_compute; reflexivity |].
  vm_compute. discriminate.
Qed.

(** C3, as stated, fails when a failure of the first run is gone in the
    second: the first lookup of the first monitored repository fails, the
    sweep logs it, skips that repository and returns; nobody adds an issue
    or a comment; the second sweep then answers the issues 8 and 9 the
    first one skipped. *)
Lemma transient_failure_is_retried :
  fst (process_issues ex_tracker_flaky ex_agent ex_world) = Ok tt /\
  In (LogError
        "Error monitoring jayo2005/paint-odoo-operations: 503 Service Unavailable")
     (trace (sweep ex_tracker_flaky ex_agent ex_world)) /\
  comments_of (sweep ex_tracker_flaky ex_agent ex_world) (odoo_operations, 8%Z) = [] /\
  length (comments_of (sweeps ex_tracker_flaky ex_agent 2 ex_world)
            (odoo_operations, 8%Z)) = 1 /\
  length (comments_of (sweeps ex_tracker_flaky ex_agent 2 ex_world)
            (odoo_operations, 9%Z)) = 1 /\
  comments (sweep ex_tracker_flaky ex_agent (sweep ex_tracker_flaky ex_agent ex_world))
  <> comments (sweep ex_tracker_flaky ex_agent ex_world).
Proof.
  split; [apply process_issues_ok |].
  split; [vm_compute; tauto |].
  split; [vm_compute; reflexivity |].
  split; [vm_compute; reflexivity |].
  split; [vm_compute; reflexivity |].
  intros E.
  apply (f_equal (fun c => length (default [] (c !! (odoo_operations, 8%Z))))) in E.
  vm_compute in E. discriminate E.
Qed.
Lemma second_sweep_posts_nothing_witness :
  comments (sweep ex_tracker_locked ex_agent (sweep ex_tracker_locked ex_agent ex_world)) =
  comments (sweep ex_tracker_locked ex_agent ex_world).
Proof.
  apply (second_sweep_posts_nothing ex_tracker_locked ex_agent ex_world).
  intros history history' o. reflexivity.
Defined.
Lemma irrelevant_issue_never_answered_witness :
  classify (title ex_issue7) (body ex_issue7) = Ok order_sync /\
  comments_of (sweeps ex_tracker ex_agent 2 ex_world) (odoo_operations, 7%Z) =
  comments_of ex_world (odoo_operations, 7%Z).
Proof.
  split; [vm_compute; reflexivity |].
  apply (irrelevant_issue_never_answered ex_tracker ex_agent odoo_operations 7 2).
  - now left.
  - intros d Hd Hn. vm_compute in Hd.
    destruct Hd as [<- | [<- | [<- | []]]].
    + exact ex_issue7_irrelevant.
    + discriminate Hn.
    + discriminate Hn.
Defined.
Lemma missing_token_is_noop_witness :
  process_issues ex_tracker (init ∅) ex_world =
  (Ok tt, with_event ex_world (LogError "GITHUB_TOKEN not set")).
Proof.
  apply (missing_token_is_noop ∅ ex_tracker ex_world). reflexivity.
Defined.
(** C4, as stated, fails for the agent's own repository: when its issues
    cannot be listed, the sweep returns normally but the monitored
    repositories, healthy as they are, are never looked up, and the
    relevant, unanswered issue 8 of the first of them gets no comment. *)
Lemma own_repository_failure_ends_sweep :
  healthy ex_tracker_own_down odoo_operations /\
  In ex_issue8 (issues_of ex_tracker_own_down odoo_operations) /\
  relevant ex_issue8 /\
  marked (comments_of ex_world (odoo_operations, 8%Z)) = false /\
  fst (process_issues ex_tracker_own_down ex_agent ex_world) = Ok tt /\
  comments_of (sweep ex_tracker_own_down ex_agent ex_world) (odoo_operations, 8%Z) = [] /\
  ~ In (Call (op_get_repo {| token := cross_repo_token ex_agent |} odoo_operations))
       (trace (sweep ex_tracker_own_down ex_agent ex_world)).
Proof.
  split; [apply ex_tracker_own_down_healthy; now left |].
  split; [vm_compute; right; now left |].
  split; [exact ex_issue8_relevant |].
  split; [reflexivity |].
  split; [apply process_issues_ok |].
  split; [vm_compute; reflexivity |].
  intros H. vm_compute in H.
  repeat (destruct H as [H | H]; [discriminate H |]). destruct H.
Qed.
Lemma monitored_failures_are_isolated_witness :
  (exists w1,
     monitor ex_tracker_locked ex_agent {| token := cross_repo_token ex_agent |}
       odoo_operations ex_world =
     (Ok tt,
      with_event w1
        (LogError "Error monitoring jayo2005/paint-odoo-operations: 403 Forbidden"))) /\
  In (Call (op_get_repo {| token := cross_repo_token ex_agent |} project_orchestration))
     (trace (sweep ex_tracker_locked ex_agent ex_world)) /\
  exists r,
    contains marker r = true /\
    comments_of (sweep ex_tracker_locked ex_agent ex_world)
      (project_orchestration, 3%Z) =
    comments_of ex_world (project_orchestration, 3%Z) ++ [r].
Proof.
  destruct (monitored_failures_are_isolated ex_tracker_locked ex_agent ex_world)
    as (_ & _ & Hlog & H).
  split.
  - eexists.
    apply (Hlog {| token := cross_repo_token ex_agent |} odoo_operations ex_world
             (GithubException "403 Forbidden")).
    vm_compute. reflexivity.
  - destruct (H ex_token eq_refl eq_refl) with (name := project_orchestration)
      as [Hcall Hd].
    + vm_compute. reflexivity.
    + right. now left.
    + split; [exact Hcall |].
      apply (Hd ex_issue3).
      * apply ex_tracker_locked_healthy; [right; right; now left | discriminate].
      * vm_compute. now left.
      * exact ex_issue3_relevant.
      * reflexivity.
Defined.

(** C8, as stated, fails: the tracker refuses the comment on issue 8 of the
    first monitored repository, and issue 9 of that repository, relevant,
    unanswered and with nothing failing on it, gets no comment in that
    sweep, while it gets one when issue 8 accepts comments. *)
Lemma locked_issue_blocks_later_issues :
  In ex_issue9 (issues_of ex_tracker_locked odoo_operations) /\
  (forall history o,
      op_repo o = odoo_operations ->
      (forall g text, o <> op_create_comment g odoo_operations 8 text) ->
      raises ex_tracker_locked history o = None) /\
  In (LogError "Error monitoring jayo2005/paint-odoo-operations: 403 Forbidden")
     (trace (sweep ex_tracker_locked ex_agent ex_world)) /\
  comments_of (sweep ex_tracker_locked ex_agent ex_world) (odoo_operations, 9%Z) = [] /\
  length (comments_of (sweep ex_tracker ex_agent ex_world) (odoo_operations, 9%Z)) = 1.
Proof.
  split; [vm_compute; right; right; now left |].
  split.
  { intros history [] Ho Hne; try reflexivity. cbn [op_repo] in Ho. subst.
    cbn [raises ex_tracker_locked]. rewrite String.eqb_refl. cbn [andb].
    destruct (Z.eqb_spec n 8) as [-> | _]; [| reflexivity].
    now contradiction (Hne g text). }
  split; [vm_compute; tauto |].
  split; vm_compute; reflexivity.
Qed.
Lemma issue_failure_ends_repository_witness :
  exists w2,
    monitor ex_tracker_locked ex_agent {| token := cross_repo_token ex_agent |}
      odoo_operations ex_world =
    (Ok tt,
     with_event w2
       (LogError "Error monitoring jayo2005/paint-odoo-operations: 403 Forbidden")) /\
    comments w2 = ∅.
Proof.
  set (g := {| token := cross_repo_token ex_agent |}).
  set (body := respond_other ex_tracker_locked ex_agent odoo_operations).
  set (w0 := snd (fetch ex_tracker_locked g odoo_operations ex_world)).
  set (w1 := snd (for_each [ex_object ex_issue7] body w0)).
  set (w2 := snd (body (ex_object ex_issue8) w1)).
  exists w2.
  destruct (issue_failure_ends_repository ex_tracker_locked ex_agent
              g odoo_operations ex_world
              [ex_object ex_issue7] (ex_object ex_issue8) [ex_object ex_issue9]
              w0 w1 w2 (GithubException "403 Forbidden")) as [H1 H2];
    [vm_compute; reflexivity .. |].
  split; [exact H1 |]. rewrite H2. vm_compute. reflexivity.
Defined.
Lemma classifier_priority_order_witness :
  analyze_request ex_agent "Webshop trouble" (Some "The COLORS are wrong") =
    Ok (handle_product_sync_request ex_agent "Webshop trouble"
          (Some "The COLORS are wrong")) /\
  analyze_request ex_agent "Order 4711" (Some "The import job hangs") =
    Ok (handle_order_sync_request "Order 4711" (Some "The import job hangs")) /\
  analyze_request ex_agent "Order 4711" (Some "The import job hangs") <>
    Ok (handle_job_queue_request "Order 4711" (Some "The import job hangs")).
Proof.
  destruct (classifier_priority_order ex_agent "Webshop trouble"
              "The COLORS are wrong") as (_ & H & _).
  destruct (classifier_priority_order ex_agent "Order 4711"
              "The import job hangs") as (_ & _ & _ & H').
  split.
  - apply H. vm_compute. reflexivity.
  - destruct H' as (_ & E & N & _); [vm_compute; reflexivity .. |].
    split; [exact E | exact N].
Defined.

Lemma classifier_total_witness :
  exists c,
    classify "Hello" (Some "World") = Ok c /\
    analyze_request ex_agent "Hello" (Some "World") =
      Ok (respond ex_agent c "Hello" (Some "World")) /\
    c = general.
Proof.
  destruct (classifier_total ex_agent "Hello" "World") as (c & H1 & H2 & _ & H4).
  exists c. repeat split; [exact H1 | exact H2 |].
  apply H4. intros row Hrow. simpl in Hrow.
  destruct Hrow as [<- | [<- | [<- | [<- | []]]]]; vm_compute; reflexivity.
Defined.
Lemma canned_responses_ignore_issue_witness :
  respond ex_agent order_sync "Order 1 is late" (Some "Please help") =
  respond ex_agent order_sync "Webhook down" None /\
  analyze_request ex_agent "Order 1 is late" (Some "Please help") =
  analyze_request ex_agent "Webhook down" (Some "since Monday").
Proof.
  destruct (canned_responses_ignore_issue ex_agent) as (H1 & H2 & _).
  split.
  - apply H1. discriminate.
  - apply (H2 order_sync); [vm_compute; reflexivity .. | discriminate].
Defined.
Lemma main_addresses_configured_repositories_witness :
  let o := op_get_issues {| token := Some "ghp_example" |} odoo_operations in
  (op_repo o = own_repository /\
   token (op_client o) = ex_environ !! "GITHUB_TOKEN") \/
  (In (op_repo o) repos_to_monitor /\
   token (op_client o) =
     match ex_environ !! "CROSS_REPO_TOKEN" with
     | Some t => Some t
     | None => ex_environ !! "GITHUB_TOKEN"
     end).
Proof.
  intros o.
  destruct (main_addresses_configured_repositories ex_environ ex_tracker ex_world)
    as (_ & events & E & H).
  apply H. change (trace ex_world ++ events) with events in E. rewrite <- E.
  vm_compute. do 7 right. left. reflexivity.
Defined.
Lemma posts_follow_checks_witness :
  exists pre',
    firstn 3 (trace (sweep ex_tracker ex_agent ex_world)) =
    pre' ++ [Call (op_get_comments {| token := Some "ghp_example" |}
                     own_repository 1)].
Proof.
  destruct (posts_follow_checks ex_tracker ex_agent ex_world)
    as (events & E & H & _).
  change (trace ex_world ++ events) with events in E.
  destruct (H (firstn 3 (trace (sweep ex_tracker ex_agent ex_world)))
              {| token := Some "ghp_example" |} own_repository 1%Z
              (handle_product_sync_request ex_agent (title ex_issue1) (body ex_issue1))
              (skipn 4 (trace (sweep ex_tracker ex_agent ex_world))))
    as [_ Hpre].
  - rewrite <- E. vm_compute. reflexivity.
  - exact Hpre.
Defined.
Lemma only_listed_issues_change_witness :
  comments_of (sweeps ex_tracker ex_agent 2 ex_world) (odoo_operations, 10%Z) =
  comments_of ex_world (odoo_operations, 10%Z).
Proof.
  apply (only_listed_issues_change ex_tracker ex_agent 2 ex_world).
  right. intros d Hd. vm_compute in Hd.
  destruct Hd as [<- | [<- | [<- | []]]]; discriminate.
Defined.
Lemma comments_settle_after_first_sweep_witness :
  comments (sweeps ex_tracker_locked ex_agent 4 ex_world) =
  comments (sweep ex_tracker_locked ex_agent ex_world).
Proof.
  apply (comments_settle_after_first_sweep ex_tracker_locked ex_agent 3 ex_world).
  intros history history' o. reflexivity.
Defined.
Lemma empty_token_counts_as_missing_witness :
  comments
    (snd (main {[ "GITHUB_TOKEN" := ""; "CROSS_REPO_TOKEN" := "ghp_other" ]}
            ex_tracker ex_world)) = ∅.
Proof.
  rewrite (empty_token_counts_as_missing
             {[ "GITHUB_TOKEN" := ""; "CROSS_REPO_TOKEN" := "ghp_other" ]}
             ex_tracker ex_world); [reflexivity |].
  vm_compute. reflexivity.
Defined.
Lemma classifier_keywords_stay_within_title_or_body_witness :
  any_in ["product"; "sync"; "variant"; "color"]
    (request_text "New pro" "duct line") = false /\
  classify "New pro" (Some "duct line") = Ok general.
Proof.
  destruct (classifier_keywords_stay_within_title_or_body "New pro" "duct line")
    as [H _].
  split.
  - pose proof (H (product_sync, ["product"; "sync"; "variant"; "color"])
                  (or_introl eq_refl)) as Hp.
    cbn [snd] in Hp. rewrite Hp. vm_compute. reflexivity.
  - vm_compute. reflexivity.
Defined.
Lemma relevance_keyword_spans_title_and_body_witness :
  any_in relevance_keywords (lower "We are going online") = false /\
  any_in relevance_keywords (lower "store owners ask when") = false /\
  relevant {| number := 5;
              title := "We are going " +:+ "online";
              body := Some ("store" +:+ " owners ask when") |}.
Proof.
  split; [vm_compute; reflexivity |].
  split; [vm_compute; reflexivity |].
  apply (relevance_keyword_spans_title_and_body "online" "store").
  vm_compute. tauto.
Defined.
Lemma configuration_never_by_webhook_witness :
  classify "Webhook setup guide" (Some "api keys") = Ok order_sync /\
  any_in ["config"; "setup"; "api"] (request_text "API setup" "where?") = true.
Proof.
  split.
  - destruct (configuration_never_by_webhook "Webhook setup guide" "api keys")
      as [_ H].
    destruct (H eq_refl) as [E | E]; [vm_compute in E; discriminate E | exact E].
  - destruct (configuration_never_by_webhook "API setup" "where?") as [H _].
    apply H. vm_compute. reflexivity.
Defined.
Lemma keyword_case_ignored_by_every_interpreter_witness :
  classify (interpreter := wide_interpreter)
    ("Paint " +:+ kelvin_sign +:+ "elvin") (Some "the VARIANT list") =
    Ok product_sync /\
  relevant (interpreter := wide_interpreter)
    {| number := 1; title := "WebHook " +:+ dotted_capital_i; body := Some "" |}.
Proof.
  split.
  - destruct (keyword_case_ignored_by_every_interpreter
                (interpreter := wide_interpreter) ex_agent
                ("Paint " +:+ kelvin_sign +:+ "elvin") "the VARIANT list" "VARIANT")
      as (_ & _ & H & _); [right; vm_compute; reflexivity |].
    apply H. vm_compute. tauto.
  - destruct (keyword_case_ignored_by_every_interpreter
                (interpreter := wide_interpreter) ex_agent
                ("WebHook " +:+ dotted_capital_i) "" "WebHook")
      as (_ & _ & _ & H); [left; vm_compute; reflexivity |].
    apply H. vm_compute. tauto.
Defined.

